(** * Universe-Simulator: the simulation core, embedded and verified

    The development covers the core of the two near-duplicate programs
    [classic_universe.py] and [Python Models/butterfly_effect.py]:
    [CelestialBody.force_from], [CelestialBody.update],
    [StarSystem.integrate], [Universe.run] and
    [Universe._random_quantum_event].

    Modelling decisions.
    - Numbers.  Python floats are read as exact real numbers ([R]): the
      properties proved over them are those of the algorithm, computed in
      exact arithmetic, not of binary64 rounding and overflow.  The two
      operations of Python that can raise on numbers ([/] on a zero
      divisor, [math.sqrt] on a negative argument) do raise in the model;
      that they never do so in the core is proved, not assumed.
      [force_from] and [update] are embedded a second time over binary64
      numbers ([Binary64]), to evaluate what the machine computes where
      rounding or overflow makes it differ from the algorithm.
    - Objects.  Bodies and star systems are Python objects, shared by
      reference: the state holds one store per class, addressed by
      references, and every attribute read or write goes through it.  Two
      collections that hold the same reference hold the same object.
      A reference always denotes an object (Python has no dangling
      reference), so the stores are total.
    - Effects.  A computation takes the state and ends either normally or
      by raising an exception, in both cases with the state it has reached.
      The pseudo-random generator is a stream of draws that is part of the
      state; [print] appends to a log that is part of the state, and so do
      two ghost events that record the calls the driver makes. *)

From Stdlib Require Import Floats.
From Stdlib Require Import Reals Lra Lia ZArith String.
From stdpp Require Import base list.

Set Warnings "-inexact-float".

(** ** Data model *)

(** References to objects. *)
Definition loc := nat.

(** [class CelestialBody]: [name], [mass], [x], [y], [vx], [vy].  The
    subclasses [Star], [WhiteDwarf], [NeutronStar], [BlackHole], [Moon] and
    [Asteroid] add nothing; [Planet] adds the list [moons].  The model gives
    every body the attribute [moons]; the code reads it only from the members
    of [StarSystem.planets], typed [list[Planet]]. *)
Module CelestialBody.
Record t : Type := mk {
  name : string;
  mass : R;
  x : R;
  y : R;
  vx : R;
  vy : R;
  moons : list loc
}.
End CelestialBody.

(** [class StarSystem]: [name], [primary], [planets], [asteroids],
    [stellar_remnants].  [primary] is a reference to a body (typed
    [Union[Star, BlackHole]], never [None]); the three lists hold references
    to bodies. *)
Module StarSystem.
Record t : Type := mk {
  name : string;
  primary : loc;
  planets : list loc;
  asteroids : list loc;
  stellar_remnants : list loc
}.
End StarSystem.

(** [class Galaxy]: of its attributes the core reads [star_systems] only
    (nebulae, globular clusters, the quasar and the central black hole are
    never read by [run]). *)
Module Galaxy.
Record t : Type := mk { name : string; star_systems : list loc }.
End Galaxy.

Module GalaxyCluster.
Record t : Type := mk { name : string; galaxies : list Galaxy.t }.
End GalaxyCluster.

Module SuperCluster.
Record t : Type := mk { name : string; galaxy_clusters : list GalaxyCluster.t }.
End SuperCluster.

(** [class Universe]: the list [superclusters] and the constants. *)
Module Universe.
Record t : Type := mk { superclusters : list SuperCluster.t }.

(** [G = 6.674_30e-11] *)
Definition G : R := 6.67430e-11.
End Universe.

(** The exceptions of Python that the core can name or meet. *)
Inductive exn : Type :=
| ZeroDivisionError
| ValueError
| IndexError
| AttributeError
| UnboundLocalError.

(** What a run leaves behind: the lines it prints, and two ghost events that
    mark the calls [ss.integrate(dt)] and [self._random_quantum_event(k)] made
    by [Universe.run]. *)
Inductive event : Type :=
| PrintRunning (steps : Z)
    (* "Running universe simulation for {steps} steps..." *)
| PrintComplete (total_systems : Z)
    (* "Simulation complete. Integrated {total_systems} star systems." *)
| PrintMeasurement (step : Z) (primary_name : string) (spin : string)
    (* "[step {step:02}] Quantum spin measurement on {name}: {spin}" *)
| PrintFailed (step : Z) (e : exn)
    (* "[step {step:02}] Quantum event failed: {e}" *)
| CallIntegrate (ss : loc)
| CallQuantumEvent (step : Z).

Record State : Type := mkState {
  bodies : loc -> CelestialBody.t;   (* the CelestialBody objects *)
  systems : loc -> StarSystem.t;     (* the StarSystem objects *)
  entropy : nat -> nat;              (* the generator: its n-th draw *)
  drawn : nat;                       (* how many draws were consumed *)
  log : list event                   (* oldest first *)
}.

(** ** Computations: state and exceptions *)

Inductive outcome (A : Type) : Type :=
| Done (a : A) (s : State)
| Raised (e : exn) (s : State).
Arguments Done {A} a s.
Arguments Raised {A} e s.

Definition M (A : Type) : Type := State -> outcome A.

Definition ret {A} (a : A) : M A := fun s => Done a s.

Definition bind {A B} (m : M A) (k : A -> M B) : M B :=
  fun s => match m s with
           | Done a s' => k a s'
           | Raised e s' => Raised e s'
           end.

Definition raise {A} (e : exn) : M A := fun s => Raised e s.

(** [try: body  except <handled>: handler] *)
Definition try_except {A} (body : M A) (handled : exn -> bool)
    (handler : exn -> M A) : M A :=
  fun s => match body s with
           | Done a s' => Done a s'
           | Raised e s' => if handled e then handler e s' else Raised e s'
           end.

Declare Scope py_scope.
Delimit Scope py_scope with py.
Notation "x <- m ;; k" := (bind m (fun x => k))
  (at level 100, m at next level, right associativity) : py_scope.
Notation "m ;; k" := (bind m (fun _ => k))
  (at level 100, right associativity) : py_scope.
Open Scope py_scope.

(** The state an outcome carries, and its value when it ended normally. *)
Definition final {A} (o : outcome A) : State :=
  match o with Done _ s => s | Raised _ s => s end.

Definition returns {A} (o : outcome A) : Prop :=
  match o with Done _ _ => True | Raised _ _ => False end.

(** [for v in l: acc = body(acc, v)] *)
Fixpoint for_each {A B} (l : list A) (body : B -> A -> M B) (acc : B) : M B :=
  match l with
  | [] => ret acc
  | v :: l' => acc' <- body acc v ;; for_each l' body acc'
  end.

(** [range(lo, hi)] over naturals, and [range(steps)] over a Python int
    (empty when [steps <= 0]). *)
Definition range (lo hi : nat) : list nat := seq lo (hi - lo).
Definition range_int (steps : Z) : list Z := map Z.of_nat (seq 0 (Z.to_nat steps)).

(** *** Attribute access *)

Definition getattr {A} (field : CelestialBody.t -> A) (o : loc) : M A :=
  fun s => Done (field (bodies s o)) s.

Definition store_body (o : loc) (b : CelestialBody.t) (s : State) : State :=
  {| bodies := fun o' => if Nat.eqb o' o then b else bodies s o';
     systems := systems s; entropy := entropy s; drawn := drawn s; log := log s |}.

Definition set_x (o : loc) (v : R) : M unit :=
  fun s => let b := bodies s o in
    Done tt (store_body o (CelestialBody.mk b.(CelestialBody.name) b.(CelestialBody.mass)
      v b.(CelestialBody.y) b.(CelestialBody.vx) b.(CelestialBody.vy) b.(CelestialBody.moons)) s).

Definition set_y (o : loc) (v : R) : M unit :=
  fun s => let b := bodies s o in
    Done tt (store_body o (CelestialBody.mk b.(CelestialBody.name) b.(CelestialBody.mass)
      b.(CelestialBody.x) v b.(CelestialBody.vx) b.(CelestialBody.vy) b.(CelestialBody.moons)) s).

Definition set_vx (o : loc) (v : R) : M unit :=
  fun s => let b := bodies s o in
    Done tt (store_body o (CelestialBody.mk b.(CelestialBody.name) b.(CelestialBody.mass)
      b.(CelestialBody.x) b.(CelestialBody.y) v b.(CelestialBody.vy) b.(CelestialBody.moons)) s).

Definition set_vy (o : loc) (v : R) : M unit :=
  fun s => let b := bodies s o in
    Done tt (store_body o (CelestialBody.mk b.(CelestialBody.name) b.(CelestialBody.mass)
      b.(CelestialBody.x) b.(CelestialBody.y) b.(CelestialBody.vx) v b.(CelestialBody.moons)) s).

Definition get_system (o : loc) : M StarSystem.t :=
  fun s => Done (systems s o) s.

(** *** Numbers *)

(** [a / b]: raises [ZeroDivisionError] on a zero divisor. *)
Definition truediv (a b : R) : M R :=
  if Req_dec_T b 0 then raise ZeroDivisionError else ret (a / b)%R.

(** [math.sqrt(a)]: raises [ValueError] on a negative argument. *)
Definition math_sqrt (a : R) : M R :=
  if Rlt_dec a 0 then raise ValueError else ret (sqrt a).

(** *** Lists indexed in place *)

(** [l[i]]: raises [IndexError] out of range. *)
Definition getitem {A} (l : list A) (i : nat) : M A :=
  match l !! i with
  | Some a => ret a
  | None => raise IndexError
  end.

(** [forces[i][0] += v] and [forces[i][1] += v] on a list of pairs. *)
Definition iadd_0 (forces : list (R * R)) (i : nat) (v : R) : M (list (R * R)) :=
  f <- getitem forces i ;; ret (<[i := ((fst f + v)%R, snd f)]> forces).

Definition iadd_1 (forces : list (R * R)) (i : nat) (v : R) : M (list (R * R)) :=
  f <- getitem forces i ;; ret (<[i := (fst f, (snd f + v)%R)]> forces).

(** [forces[j][0] -= v] and [forces[j][1] -= v]. *)
Definition isub_0 (forces : list (R * R)) (j : nat) (v : R) : M (list (R * R)) :=
  f <- getitem forces j ;; ret (<[j := ((fst f - v)%R, snd f)]> forces).

Definition isub_1 (forces : list (R * R)) (j : nat) (v : R) : M (list (R * R)) :=
  f <- getitem forces j ;; ret (<[j := (fst f, (snd f - v)%R)]> forces).

(** *** Output and randomness *)

Definition record (e : event) (s : State) : State :=
  {| bodies := bodies s; systems := systems s;
     entropy := entropy s; drawn := drawn s; log := log s ++ [e] |}.

Definition emit (e : event) : M unit := fun s => Done tt (record e s).

(** The generator after one draw. *)
Definition consume (s : State) : State :=
  {| bodies := bodies s; systems := systems s;
     entropy := entropy s; drawn := S (drawn s); log := log s |}.

(** [random.choice(seq)]: [IndexError] on an empty sequence, otherwise the
    element at an index below [len(seq)] taken from the generator. *)
Definition random_choice {A} (seq : list A) : M A :=
  fun s => match seq with
           | [] => Raised IndexError s
           | a :: _ =>
               Done (nth (entropy s (drawn s) mod length seq) seq a) (consume s)
           end.

(** ** classic_universe.py *)

Module Classic.

(** [CelestialBody.force_from(self, other)], lines 144-151.  The numbers
    are exact reals; [Binary64.force_from] is the method on floats. *)
Definition force_from (self other : loc) : M (R * R) :=
  other_x <- getattr CelestialBody.x other ;;
  self_x <- getattr CelestialBody.x self ;;
  other_y <- getattr CelestialBody.y other ;;
  self_y <- getattr CelestialBody.y self ;;
  let dx := (other_x - self_x)%R in
  let dy := (other_y - self_y)%R in
  let r2 := (dx * dx + dy * dy)%R in
  if Rlt_dec r2 1e-10 then ret (0%R, 0%R) else
  self_mass <- getattr CelestialBody.mass self ;;
  other_mass <- getattr CelestialBody.mass other ;;
  F <- truediv (Universe.G * self_mass * other_mass) r2 ;;
  r <- math_sqrt r2 ;;
  fx <- truediv (F * dx) r ;;
  fy <- truediv (F * dy) r ;;
  ret (fx, fy).

(** [CelestialBody.update(self, fx, fy, dt)], lines 153-160.  The numbers
    are exact reals; [Binary64.update] is the method on floats. *)
Definition update (self : loc) (fx fy dt : R) : M unit :=
  self_mass <- getattr CelestialBody.mass self ;;
  if Rle_dec self_mass 0 then ret tt else
  m <- getattr CelestialBody.mass self ;;
  ax <- truediv fx m ;;
  m <- getattr CelestialBody.mass self ;;
  ay <- truediv fy m ;;
  v <- getattr CelestialBody.vx self ;;
  set_vx self (v + ax * dt)%R ;;
  v <- getattr CelestialBody.vy self ;;
  set_vy self (v + ay * dt)%R ;;
  p <- getattr CelestialBody.x self ;;
  v <- getattr CelestialBody.vx self ;;
  set_x self (p + v * dt)%R ;;
  p <- getattr CelestialBody.y self ;;
  v <- getattr CelestialBody.vy self ;;
  set_y self (p + v * dt)%R.

(** Lines 199-203 of [StarSystem.integrate]: the flattened list of
    bodies. *)
Definition collect_bodies (self : loc) : M (list loc) :=
  ss <- get_system self ;;
  let bodies := [StarSystem.primary ss] ++ StarSystem.planets ss
                ++ StarSystem.asteroids ss ++ StarSystem.stellar_remnants ss in
  for_each (StarSystem.planets ss)
    (fun bodies planet =>
       ms <- getattr CelestialBody.moons planet ;; ret (bodies ++ ms))
    bodies.

(** Lines 209-218: the force accumulators after the loop over the pairs. *)
Definition pairwise_forces (bodies : list loc) : M (list (R * R)) :=
  let n := length bodies in
  let forces := replicate n (0%R, 0%R) in
  for_each (range 0 n)
    (fun forces i =>
       for_each (range (i + 1) n)
         (fun forces j =>
            bi <- getitem bodies i ;;
            bj <- getitem bodies j ;;
            f <- force_from bi bj ;;
            let fx := fst f in
            let fy := snd f in
            forces <- iadd_0 forces i fx ;;
            forces <- iadd_1 forces i fy ;;
            forces <- isub_0 forces j fx ;;
            isub_1 forces j fy)
         forces)
    forces.

(** [StarSystem.integrate(self, dt)], lines 196-222. *)
Definition integrate (self : loc) (dt : R) : M unit :=
  bodies <- collect_bodies self ;;
  let n := length bodies in
  if (n <? 2)%nat then ret tt else
  forces <- pairwise_forces bodies ;;
  for_each (zip bodies forces)
    (fun _ bf => update (fst bf) (fst (snd bf)) (snd (snd bf)) dt)
    tt.

(** [Universe._random_quantum_event(self, step)], lines 45-70. *)
Definition _random_quantum_event (self : Universe.t) (step : Z) : M unit :=
  try_except
    (match Universe.superclusters self with
     | [] => ret tt
     | _ =>
       sc <- random_choice (Universe.superclusters self) ;;
       match SuperCluster.galaxy_clusters sc with
       | [] => ret tt
       | _ =>
         gc <- random_choice (SuperCluster.galaxy_clusters sc) ;;
         match GalaxyCluster.galaxies gc with
         | [] => ret tt
         | _ =>
           gal <- random_choice (GalaxyCluster.galaxies gc) ;;
           match Galaxy.star_systems gal with
           | [] => ret tt
           | _ =>
             ss <- random_choice (Galaxy.star_systems gal) ;;
             spin <- random_choice ["up"%string; "down"%string] ;;
             sys <- get_system ss ;;
             name <- getattr CelestialBody.name (StarSystem.primary sys) ;;
             emit (PrintMeasurement step name spin)
           end
         end
       end
     end)
    (fun e => match e with IndexError | AttributeError => true | _ => false end)
    (fun e => emit (PrintFailed step e)).

(** The pass over the hierarchy, lines 31-37; the result is the value of
    [total_systems] after it. *)
Definition integrate_all (self : Universe.t) (dt : R) : M Z :=
  for_each (Universe.superclusters self) (fun total_systems sc =>
    for_each (SuperCluster.galaxy_clusters sc) (fun total_systems gc =>
      for_each (GalaxyCluster.galaxies gc) (fun total_systems gal =>
        for_each (Galaxy.star_systems gal) (fun total_systems ss =>
          emit (CallIntegrate ss) ;;
          integrate ss dt ;;
          ret (total_systems + 1)%Z)
        total_systems)
      total_systems)
    total_systems)
  0%Z.

(** [Universe.run(self, steps, dt)], lines 25-43.  The local
    [total_systems] is bound by the first statement of the loop body: before
    the first iteration it is unbound ([None]), and line 43 reads it. *)
Definition run (self : Universe.t) (steps : Z) (dt : R) : M unit :=
  emit (PrintRunning steps) ;;
  total_systems <-
    for_each (range_int steps)
      (fun (_ : option Z) k =>
         total_systems <- integrate_all self dt ;;
         (if (k mod 2 =? 0)%Z
          then emit (CallQuantumEvent k) ;; _random_quantum_event self k
          else ret tt) ;;
         ret (Some total_systems))
      None ;;
  match total_systems with
  | Some t => emit (PrintComplete t)
  | None => raise UnboundLocalError
  end.

End Classic.

(** ** Python Models/butterfly_effect.py *)

Module Butterfly.

(** [CelestialBody.force_from(self, other)], lines 88-95.  The numbers are
    exact reals; [Binary64.force_from] is the method on floats. *)
Definition force_from (self other : loc) : M (R * R) :=
  other_x <- getattr CelestialBody.x other ;;
  self_x <- getattr CelestialBody.x self ;;
  other_y <- getattr CelestialBody.y other ;;
  self_y <- getattr CelestialBody.y self ;;
  let dx := (other_x - self_x)%R in
  let dy := (other_y - self_y)%R in
  let r2 := (dx * dx + dy * dy)%R in
  if Rlt_dec r2 1e-10 then ret (0%R, 0%R) else
  self_mass <- getattr CelestialBody.mass self ;;
  other_mass <- getattr CelestialBody.mass other ;;
  F <- truediv (Universe.G * self_mass * other_mass) r2 ;;
  r <- math_sqrt r2 ;;
  fx <- truediv (F * dx) r ;;
  fy <- truediv (F * dy) r ;;
  ret (fx, fy).

(** [CelestialBody.update(self, fx, fy, dt)], lines 96-102.  The numbers
    are exact reals; [Binary64.update] is the method on floats. *)
Definition update (self : loc) (fx fy dt : R) : M unit :=
  self_mass <- getattr CelestialBody.mass self ;;
  if Rle_dec self_mass 0 then ret tt else
  m <- getattr CelestialBody.mass self ;;
  ax <- truediv fx m ;;
  m <- getattr CelestialBody.mass self ;;
  ay <- truediv fy m ;;
  v <- getattr CelestialBody.vx self ;;
  set_vx self (v + ax * dt)%R ;;
  v <- getattr CelestialBody.vy self ;;
  set_vy self (v + ay * dt)%R ;;
  p <- getattr CelestialBody.x self ;;
  v <- getattr CelestialBody.vx self ;;
  set_x self (p + v * dt)%R ;;
  p <- getattr CelestialBody.y self ;;
  v <- getattr CelestialBody.vy self ;;
  set_y self (p + v * dt)%R.

(** Lines 128-130 of [StarSystem.integrate]. *)
Definition collect_bodies (self : loc) : M (list loc) :=
  ss <- get_system self ;;
  let bodies := [StarSystem.primary ss] ++ StarSystem.planets ss
                ++ StarSystem.asteroids ss ++ StarSystem.stellar_remnants ss in
  for_each (StarSystem.planets ss)
    (fun bodies planet =>
       ms <- getattr CelestialBody.moons planet ;; ret (bodies ++ ms))
    bodies.

(** Lines 133-138. *)
Definition pairwise_forces (bodies : list loc) : M (list (R * R)) :=
  let n := length bodies in
  let forces := replicate n (0%R, 0%R) in
  for_each (range 0 n)
    (fun forces i =>
       for_each (range (i + 1) n)
         (fun forces j =>
            bi <- getitem bodies i ;;
            bj <- getitem bodies j ;;
            f <- force_from bi bj ;;
            let fx := fst f in
            let fy := snd f in
            forces <- iadd_0 forces i fx ;;
            forces <- iadd_1 forces i fy ;;
            forces <- isub_0 forces j fx ;;
            isub_1 forces j fy)
         forces)
    forces.

(** [StarSystem.integrate(self, dt)], lines 127-140. *)
Definition integrate (self : loc) (dt : R) : M unit :=
  bodies <- collect_bodies self ;;
  let n := length bodies in
  if (n <? 2)%nat then ret tt else
  forces <- pairwise_forces bodies ;;
  for_each (zip bodies forces)
    (fun _ bf => update (fst bf) (fst (snd bf)) (snd (snd bf)) dt)
    tt.

(** [Universe._random_quantum_event(self, step)], lines 27-37: the three
    upper levels are sampled unguarded, and [except Exception: pass]
    swallows whatever is raised. *)
Definition _random_quantum_event (self : Universe.t) (step : Z) : M unit :=
  try_except
    (sc <- random_choice (Universe.superclusters self) ;;
     gc <- random_choice (SuperCluster.galaxy_clusters sc) ;;
     gal <- random_choice (GalaxyCluster.galaxies gc) ;;
     match Galaxy.star_systems gal with
     | [] => ret tt
     | _ =>
       ss <- random_choice (Galaxy.star_systems gal) ;;
       spin <- random_choice ["up"%string; "down"%string] ;;
       sys <- get_system ss ;;
       name <- getattr CelestialBody.name (StarSystem.primary sys) ;;
       emit (PrintMeasurement step name spin)
     end)
    (fun _ => true)
    (fun _ => ret tt).

(** The pass over the hierarchy, lines 19-23. *)
Definition integrate_all (self : Universe.t) (dt : R) : M unit :=
  for_each (Universe.superclusters self) (fun _ sc =>
    for_each (SuperCluster.galaxy_clusters sc) (fun _ gc =>
      for_each (GalaxyCluster.galaxies gc) (fun _ gal =>
        for_each (Galaxy.star_systems gal) (fun _ ss =>
          emit (CallIntegrate ss) ;;
          integrate ss dt)
        tt)
      tt)
    tt)
  tt.

(** [Universe.run(self, steps, dt)], lines 17-25. *)
Definition run (self : Universe.t) (steps : Z) (dt : R) : M unit :=
  for_each (range_int steps)
    (fun _ k =>
       integrate_all self dt ;;
       if (k mod 2 =? 0)%Z
       then emit (CallQuantumEvent k) ;; _random_quantum_event self k
       else ret tt)
    tt.

End Butterfly.

(** ** The two numeric methods over binary64

    [CelestialBody.force_from] and [CelestialBody.update] once more, on the
    floats of Python (IEEE 754 binary64, rounding to nearest), operation for
    operation and in the order Python evaluates them.  The two files agree
    on both methods to the letter (classic_universe.py lines 144-160,
    butterfly_effect.py lines 88-102).  A body is passed and returned by
    value: neither method reads anything but the attributes of its
    arguments. *)

Module Binary64.
Local Open Scope float_scope.

Record CelestialBody : Type := mk {
  name : string;
  mass : float;
  x : float;
  y : float;
  vx : float;
  vy : float
}.

Definition G : float := 6.67430e-11.

(** [a / b] raises [ZeroDivisionError] on a zero divisor (of either sign),
    [math.sqrt(a)] raises [ValueError] on a negative argument; the other
    operations never raise: they overflow to an infinity or give a NaN. *)
Definition truediv (a b : float) : option float :=
  if b =? 0 then None else Some (a / b).

Definition math_sqrt (a : float) : option float :=
  if a <? 0 then None else Some (PrimFloat.sqrt a).

(** [self.force_from(other)] *)
Definition force_from (self other : CelestialBody) : option (float * float) :=
  let dx := other.(x) - self.(x) in
  let dy := other.(y) - self.(y) in
  let r2 := dx * dx + dy * dy in
  if r2 <? 1e-10 then Some (0, 0)
  else
    match truediv (G * self.(mass) * other.(mass)) r2 with
    | None => None
    | Some F =>
      match math_sqrt r2 with
      | None => None
      | Some r =>
        match truediv (F * dx) r with
        | None => None
        | Some fx =>
          match truediv (F * dy) r with
          | None => None
          | Some fy => Some (fx, fy)
          end
        end
      end
    end.

(** [self.update(fx, fy, dt)]; the result is [self] after the call. *)
Definition update (self : CelestialBody) (fx fy dt : float) : option CelestialBody :=
  if self.(mass) <=? 0 then Some self
  else
    match truediv fx self.(mass) with
    | None => None
    | Some ax =>
      match truediv fy self.(mass) with
      | None => None
      | Some ay =>
        let vx' := self.(vx) + ax * dt in
        let vy' := self.(vy) + ay * dt in
        let x' := self.(x) + vx' * dt in
        let y' := self.(y) + vy' * dt in
        Some (mk self.(name) self.(mass) x' y' vx' vy')
      end
    end.

(** The squared separation [force_from] tests against the threshold. *)
Definition separation2 (self other : CelestialBody) : float :=
  let dx := other.(x) - self.(x) in
  let dy := other.(y) - self.(y) in
  dx * dx + dy * dy.

(** The primary and the planet of the two-body scenario. *)
Definition sun : CelestialBody := mk "Sun-Toy" 1.989e30 0 0 0 0.
Definition earth : CelestialBody := mk "Earth-Toy" 5.972e24 1.496e11 0 0 29780.

(** Two bodies heavy enough for their attraction to overflow, and a body
    of mass zero with a body farther from it than the largest float. *)
Definition heavy_left : CelestialBody := mk "Heavy-Left" 1e200 0 0 0 0.
Definition heavy_right : CelestialBody := mk "Heavy-Right" 1e200 1 0 0 0.
Definition massless_far : CelestialBody := mk "Probe" 0 (-1e308) 0 0 0.
Definition star_far : CelestialBody := mk "Star" 1 1e308 0 0 0.

End Binary64.

(** ** Vocabulary of the specification *)

(** Squared separation of two bodies, and the force the gravity law gives
    ([F = G m1 m2 / r2] along the line from [a] to [b]; zero below the
    threshold). *)
Definition separation2 (s : State) (a b : loc) : R :=
  let dx := (CelestialBody.x (bodies s b) - CelestialBody.x (bodies s a))%R in
  let dy := (CelestialBody.y (bodies s b) - CelestialBody.y (bodies s a))%R in
  (dx * dx + dy * dy)%R.

Definition gravity (s : State) (a b : loc) : R * R :=
  let dx := (CelestialBody.x (bodies s b) - CelestialBody.x (bodies s a))%R in
  let dy := (CelestialBody.y (bodies s b) - CelestialBody.y (bodies s a))%R in
  let r2 := separation2 s a b in
  if Rlt_dec r2 1e-10 then (0, 0)%R else
  let F := (Universe.G * CelestialBody.mass (bodies s a)
            * CelestialBody.mass (bodies s b) / r2)%R in
  (F * dx / sqrt r2, F * dy / sqrt r2)%R.

(** The flattened body list of a star system: primary, planets, asteroids,
    stellar remnants, then the moons of every planet. *)
Definition all_bodies (s : State) (ss : loc) : list loc :=
  let sys := systems s ss in
  [StarSystem.primary sys] ++ StarSystem.planets sys ++ StarSystem.asteroids sys
  ++ StarSystem.stellar_remnants sys
  ++ flat_map (fun p => CelestialBody.moons (bodies s p)) (StarSystem.planets sys).

(** Componentwise sum of a list of force vectors. *)
Definition vadd (u v : R * R) : R * R := ((fst u + fst v)%R, (snd u + snd v)%R).
Definition vsub (u v : R * R) : R * R := ((fst u - fst v)%R, (snd u - snd v)%R).
Definition vneg (u : R * R) : R * R := ((- fst u)%R, (- snd u)%R).
Definition sum_forces (forces : list (R * R)) : R * R :=
  foldr vadd (0, 0)%R forces.

(** The unordered pairs [(i, j)], [i < j < n], in the order the double loop
    visits them, and the contribution of one pair: the force is accumulated
    into body [i] and subtracted from body [j]. *)
Definition pairs (n : nat) : list (nat * nat) :=
  flat_map (fun i => map (pair i) (range (i + 1) n)) (range 0 n).

Definition contribute (f : nat -> nat -> R * R) (forces : list (R * R))
    (p : nat * nat) : list (R * R) :=
  alter (fun v => vsub v (f (fst p) (snd p))) (snd p)
    (alter (fun v => vadd v (f (fst p) (snd p))) (fst p) forces).

(** The force the [i]-th body of a list feels from the [j]-th. *)
Definition force_between (s : State) (bodies : list loc) (i j : nat) : R * R :=
  match bodies !! i, bodies !! j with
  | Some a, Some b => gravity s a b
  | _, _ => (0, 0)%R
  end.

(** The accumulators [integrate] hands to [update]: every pair has
    contributed once, in the order of the double loop. *)
Definition net_forces (s : State) (bodies : list loc) : list (R * R) :=
  fold_left (contribute (force_between s bodies)) (pairs (length bodies))
    (replicate (length bodies) (0, 0)%R).

(** The star systems reachable from a universe, in declaration order. *)
Definition reachable_systems (u : Universe.t) : list loc :=
  flat_map (fun sc =>
    flat_map (fun gc =>
      flat_map Galaxy.star_systems (GalaxyCluster.galaxies gc))
      (SuperCluster.galaxy_clusters sc))
    (Universe.superclusters u).

(** Readings of the log. *)
Definition is_call (e : event) : bool :=
  match e with CallIntegrate _ | CallQuantumEvent _ => true | _ => false end.
Definition is_integration (e : event) : bool :=
  match e with CallIntegrate _ => true | _ => false end.
Definition is_quantum_event (e : event) : bool :=
  match e with CallQuantumEvent _ => true | _ => false end.
Definition is_measurement (e : event) : bool :=
  match e with PrintMeasurement _ _ _ => true | _ => false end.

Definition calls (l : list event) : list event := List.filter is_call l.
Definition integrations (l : list event) : nat := length (List.filter is_integration l).
Definition quantum_events (l : list event) : list event := List.filter is_quantum_event l.
Definition measurements (l : list event) : nat := length (List.filter is_measurement l).

(** The calls one step of [run] makes: one integration per reachable system,
    then the quantum event when the counter is even. *)
Definition calls_of_step (u : Universe.t) (k : Z) : list event :=
  map CallIntegrate (reachable_systems u)
  ++ (if (k mod 2 =? 0)%Z then [CallQuantumEvent k] else []).

(** The element a draw selects: the [k]-th draw from now on, reduced below
    the length of the sequence. *)
Definition chosen {A} (seq : list A) (s : State) (k : nat) : option A :=
  seq !! (entropy s (drawn s + k) mod length seq).

(** The random walk of a quantum event meets an empty collection: the
    universe has no supercluster, or the sampled supercluster no cluster, or
    the sampled cluster no galaxy, or the sampled galaxy no star system. *)
Inductive meets_empty (u : Universe.t) (s : State) : Prop :=
| no_supercluster :
    Universe.superclusters u = [] -> meets_empty u s
| no_galaxy_cluster sc :
    chosen (Universe.superclusters u) s 0 = Some sc ->
    SuperCluster.galaxy_clusters sc = [] -> meets_empty u s
| no_galaxy sc gc :
    chosen (Universe.superclusters u) s 0 = Some sc ->
    chosen (SuperCluster.galaxy_clusters sc) s 1 = Some gc ->
    GalaxyCluster.galaxies gc = [] -> meets_empty u s
| no_star_system sc gc gal :
    chosen (Universe.superclusters u) s 0 = Some sc ->
    chosen (SuperCluster.galaxy_clusters sc) s 1 = Some gc ->
    chosen (GalaxyCluster.galaxies gc) s 2 = Some gal ->
    Galaxy.star_systems gal = [] -> meets_empty u s.

(** The star system a quantum event samples, when the walk reaches one: four
    successive draws, one per level. *)
Definition sampled_system (u : Universe.t) (s : State) : option loc :=
  match chosen (Universe.superclusters u) s 0 with
  | None => None
  | Some sc =>
    match chosen (SuperCluster.galaxy_clusters sc) s 1 with
    | None => None
    | Some gc =>
      match chosen (GalaxyCluster.galaxies gc) s 2 with
      | None => None
      | Some gal => chosen (Galaxy.star_systems gal) s 3
      end
    end
  end.

(** What a quantum event leaves behind: the stores and the generator's
    stream untouched, and at most one line in the log, the measurement on the
    sampled system. *)
Definition event_outcome (u : Universe.t) (k : Z) (s s' : State) : Prop :=
  bodies s' = bodies s /\ systems s' = systems s /\ entropy s' = entropy s
  /\ match sampled_system u s with
     | None => log s' = log s
     | Some ss =>
         exists spin, (spin = "up"%string \/ spin = "down"%string)
           /\ log s' = log s ++
                [PrintMeasurement k
                   (CelestialBody.name (bodies s (StarSystem.primary (systems s ss))))
                   spin]
     end.

(** What the integrator never writes: a body's name, mass and moons, and the
    star systems. *)
Definition same_static (s s' : State) : Prop :=
  (forall o, CelestialBody.name (bodies s' o) = CelestialBody.name (bodies s o)
             /\ CelestialBody.mass (bodies s' o) = CelestialBody.mass (bodies s o)
             /\ CelestialBody.moons (bodies s' o) = CelestialBody.moons (bodies s o))
  /\ (forall ss, systems s' ss = systems s ss).

(** Between [s] and [s'] nothing changed but positions and velocities. *)
Definition kinematics_only (s s' : State) : Prop :=
  same_static s s' /\ entropy s' = entropy s /\ drawn s' = drawn s /\ log s' = log s.

(** What a driver leaves behind: the static part of the stores and the
    generator's stream untouched, and [new] appended to the log. *)
Definition ran (s s' : State) (new : list event) : Prop :=
  same_static s s' /\ entropy s' = entropy s /\ log s' = log s ++ new.

(** Positions and velocities are those of [s]. *)
Definition same_kinematics (s s' : State) : Prop :=
  forall o, CelestialBody.x (bodies s' o) = CelestialBody.x (bodies s o)
            /\ CelestialBody.y (bodies s' o) = CelestialBody.y (bodies s o)
            /\ CelestialBody.vx (bodies s' o) = CelestialBody.vx (bodies s o)
            /\ CelestialBody.vy (bodies s' o) = CelestialBody.vy (bodies s o).

(** The body [update] leaves behind when the mass is positive: velocity
    first, from the force; then position, from the new velocity. *)
Definition euler_step (b : CelestialBody.t) (fx fy dt : R) : CelestialBody.t :=
  let ax := (fx / CelestialBody.mass b)%R in
  let ay := (fy / CelestialBody.mass b)%R in
  let vx' := (CelestialBody.vx b + ax * dt)%R in
  let vy' := (CelestialBody.vy b + ay * dt)%R in
  CelestialBody.mk (CelestialBody.name b) (CelestialBody.mass b)
    (CelestialBody.x b + vx' * dt)%R (CelestialBody.y b + vy' * dt)%R
    vx' vy' (CelestialBody.moons b).

(** ** Sample data

    The two-body system of the end-to-end scenario (a primary of mass
    1.989e30 kg at the origin, a planet of mass 5.972e24 kg at
    (1.496e11, 0) with velocity (0, 29780)), a star system that is a primary
    alone, and three universes. *)

Definition sun : CelestialBody.t :=
  CelestialBody.mk "Sun-Toy" 1.989e30 0 0 0 0 [].

Definition earth : CelestialBody.t :=
  CelestialBody.mk "Earth-Toy" 5.972e24 1.496e11 0 0 29780 [].

Definition solar_system : StarSystem.t :=
  StarSystem.mk "Solar-System-Toy" 0 [1] [] [].

Definition lone_star : StarSystem.t :=
  StarSystem.mk "Lone-Star" 2 [] [] [].

(** Body 0 is the sun, body 1 the earth; every other reference denotes a
    second star at the origin.  System 0 is the two-body system, every other
    one the lone star. *)
Definition two_body_state : State :=
  {| bodies := fun o => match o with 1 => earth | _ => sun end;
     systems := fun ss => match ss with 0 => solar_system | _ => lone_star end;
     entropy := fun n => n;
     drawn := 0;
     log := [] |}.

Definition demo_universe : Universe.t :=
  Universe.mk
    [SuperCluster.mk "Laniakea-Toy"
       [GalaxyCluster.mk "Virgo-Cluster-Toy" [Galaxy.mk "MilkyWay-Toy" [0]]]].

Definition empty_universe : Universe.t := Universe.mk [].

(** A universe whose only galaxy has no star system. *)
Definition barren_universe : Universe.t :=
  Universe.mk
    [SuperCluster.mk "Laniakea-Toy"
       [GalaxyCluster.mk "Virgo-Cluster-Toy" [Galaxy.mk "MilkyWay-Toy" []]]].

(** ** Further vocabulary *)

(** The pull the [k]-th body of a list feels from all the others. *)
Definition total_pull (s : State) (bodies : list loc) (k : nat) : R * R :=
  sum_forces
    (map (force_between s bodies k)
       (List.filter (fun j => negb (j =? k)%nat) (range 0 (length bodies)))).

(** What the pair [p] adds to accumulator [k]. *)
Definition share (f : nat -> nat -> R * R) (k : nat) (p : nat * nat) : R * R :=
  if (fst p =? k)%nat then f (fst p) (snd p)
  else if (snd p =? k)%nat then vneg (f (fst p) (snd p))
  else (0, 0)%R.

(** Linear momentum of a list of bodies. *)
Definition momentum (s : State) (l : list loc) : R * R :=
  sum_forces
    (map (fun o => ((CelestialBody.mass (bodies s o) * CelestialBody.vx (bodies s o))%R,
                    (CelestialBody.mass (bodies s o) * CelestialBody.vy (bodies s o))%R))
       l).

(** What a line of the log of [run(steps, dt)] over the universe [u], started
    in the state [s0], can be. *)
Definition expected_line (u : Universe.t) (s0 : State) (steps : Z) (e : event) : Prop :=
  match e with
  | PrintRunning n => n = steps
  | PrintComplete t => t = Z.of_nat (length (reachable_systems u))
  | CallIntegrate ss => ss ∈ reachable_systems u
  | CallQuantumEvent k => (0 <= k < steps)%Z /\ (k mod 2 = 0)%Z
  | PrintMeasurement k name spin =>
      ((0 <= k < steps)%Z /\ (k mod 2 = 0)%Z)
      /\ (spin = "up"%string \/ spin = "down"%string)
      /\ exists ss, ss ∈ reachable_systems u
           /\ name = CelestialBody.name (bodies s0 (StarSystem.primary (systems s0 ss)))
  | PrintFailed _ _ => False
  end.

(** The state [s] with another generator and another log. *)
Definition with_ghost (e : nat -> nat) (d : nat) (l : list event) (s : State) : State :=
  {| bodies := bodies s; systems := systems s; entropy := e; drawn := d; log := l |}.

Definition outcome_map {A} (f : State -> State) (o : outcome A) : outcome A :=
  match o with
  | Done a s => Done a (f s)
  | Raised e s => Raised e (f s)
  end.

(** A computation that neither reads nor writes the generator and the log. *)
Definition store_only {A} (m : M A) : Prop :=
  forall e d l s, m (with_ghost e d l s) = outcome_map (with_ghost e d l) (m s).

(** The two states hold the same bodies and the same star systems. *)
Definition same_stores (s t : State) : Prop :=
  bodies s = bodies t /\ systems s = systems t.

(** *** A run around one quantum event

    The loops of [run] over any list of counters ([run] is the loop over
    [range(steps)]), and a run cut at the call of the quantum event of a
    step [k]: what it does until the call, and what it does once the event
    has returned. *)

Definition classic_steps (u : Universe.t) (dt : R) (ks : list Z)
    (total_systems : option Z) : M (option Z) :=
  for_each ks
    (fun (_ : option Z) k =>
       total_systems <- Classic.integrate_all u dt ;;
       (if (k mod 2 =? 0)%Z
        then emit (CallQuantumEvent k) ;; Classic._random_quantum_event u k
        else ret tt) ;;
       ret (Some total_systems))
    total_systems.

Definition butterfly_steps (u : Universe.t) (dt : R) (ks : list Z) : M unit :=
  for_each ks
    (fun _ k =>
       Butterfly.integrate_all u dt ;;
       if (k mod 2 =? 0)%Z
       then emit (CallQuantumEvent k) ;; Butterfly._random_quantum_event u k
       else ret tt)
    tt.

(** The counters of the steps after step [k]: [k + 1], ..., [steps - 1]. *)
Definition later_steps (steps k : Z) : list Z :=
  map (fun i => (k + 1 + i)%Z) (range_int (steps - k - 1)).

(** classic_universe.py: the first line, the steps before [k], the pass of
    step [k] over the hierarchy (its result is [total_systems]), and the
    call. *)
Definition classic_until_event (u : Universe.t) (steps : Z) (dt : R) (k : Z) : M Z :=
  emit (PrintRunning steps) ;;
  classic_steps u dt (range_int k) None ;;
  total_systems <- Classic.integrate_all u dt ;;
  emit (CallQuantumEvent k) ;;
  ret total_systems.

(** classic_universe.py: the steps after [k], and the last line. *)
Definition classic_after_event (u : Universe.t) (steps : Z) (dt : R) (k : Z)
    (total_systems : Z) : M unit :=
  total_systems <- classic_steps u dt (later_steps steps k) (Some total_systems) ;;
  match total_systems with
  | Some t => emit (PrintComplete t)
  | None => raise UnboundLocalError
  end.

(** butterfly_effect.py: the steps before [k], the pass of step [k], and the
    call; the steps after [k] are [butterfly_steps] over [later_steps]. *)
Definition butterfly_until_event (u : Universe.t) (dt : R) (k : Z) : M unit :=
  butterfly_steps u dt (range_int k) ;;
  Butterfly.integrate_all u dt ;;
  emit (CallQuantumEvent k).

(** ** Building a star system

    The methods that populate a star system are the same in the two files:
    each appends to a list attribute of [self]. *)

Definition store_system (o : loc) (sys : StarSystem.t) (s : State) : State :=
  {| bodies := bodies s;
     systems := fun o' => if Nat.eqb o' o then sys else systems s o';
     entropy := entropy s; drawn := drawn s; log := log s |}.

(** [Planet.add_moon(self, moon)]: [self.moons.append(moon)]
    (classic_universe.py lines 175-176, butterfly_effect.py line 114). *)
Definition add_moon (self moon : loc) : M unit :=
  fun s => let b := bodies s self in
    Done tt (store_body self
               (CelestialBody.mk b.(CelestialBody.name) b.(CelestialBody.mass)
                  b.(CelestialBody.x) b.(CelestialBody.y) b.(CelestialBody.vx)
                  b.(CelestialBody.vy) (b.(CelestialBody.moons) ++ [moon])) s).

(** [StarSystem.add_planet(self, p)]: [self.planets.append(p)]
    (classic_universe.py lines 189-190, butterfly_effect.py line 124). *)
Definition add_planet (self p : loc) : M unit :=
  fun s => let sys := systems s self in
    Done tt (store_system self
               (StarSystem.mk sys.(StarSystem.name) sys.(StarSystem.primary)
                  (sys.(StarSystem.planets) ++ [p]) sys.(StarSystem.asteroids)
                  sys.(StarSystem.stellar_remnants)) s).

(** ** Reasoning about computations *)

Lemma bind_done {A B} {m : M A} {k : A -> M B} {s a s'} :
  m s = Done a s' -> bind m k s = k a s'.
Proof. intros H. unfold bind. now rewrite H. Qed.

Lemma bind_assoc {A B C} (m : M A) (f : A -> M B) (k : B -> M C) s :
  bind (bind m f) k s = bind m (fun a => bind (f a) k) s.
Proof. unfold bind. now destruct (m s). Qed.

Lemma bind_ret {A B} (a : A) (k : A -> M B) s : bind (ret a) k s = k a s.
Proof. reflexivity. Qed.

Lemma bind_getattr {A B} (field : CelestialBody.t -> A) o (k : A -> M B) s :
  bind (getattr field o) k s = k (field (bodies s o)) s.
Proof. reflexivity. Qed.

Lemma bind_get_system {B} o (k : StarSystem.t -> M B) s :
  bind (get_system o) k s = k (systems s o) s.
Proof. reflexivity. Qed.

Lemma bind_truediv {B} (a b : R) (k : R -> M B) s :
  b <> 0%R -> bind (truediv a b) k s = k (a / b)%R s.
Proof. intros H. unfold truediv. destruct (Req_dec_T b 0); [contradiction | reflexivity]. Qed.

Lemma bind_math_sqrt {B} (a : R) (k : R -> M B) s :
  (0 <= a)%R -> bind (math_sqrt a) k s = k (sqrt a) s.
Proof. intros H. unfold math_sqrt. destruct (Rlt_dec a 0); [lra | reflexivity]. Qed.

Lemma bind_getitem {A B} {l : list A} {i a} {k : A -> M B} {s} :
  l !! i = Some a -> bind (getitem l i) k s = k a s.
Proof. intros H. unfold getitem. now rewrite H. Qed.

(** ** Bodies: [force_from] and [update] *)

Section Bodies.
Local Open Scope R_scope.

Lemma separation2_sym s a b : separation2 s a b = separation2 s b a.
Proof. unfold separation2. ring. Qed.

(** No division of [force_from] meets a zero divisor and its square root
    no negative argument: the call returns the force of the gravity law and
    leaves the state as it found it. *)
Lemma force_from_gravity s a b :
  Classic.force_from a b s = Done (gravity s a b) s.
Proof.
  unfold Classic.force_from, gravity. rewrite !bind_getattr. cbv zeta.
  fold (separation2 s a b).
  destruct (Rlt_dec _ _) as [Hlt | Hge]; [reflexivity |].
  assert (Hpos : 0 < separation2 s a b) by lra.
  rewrite !bind_getattr.
  rewrite bind_truediv by lra.
  rewrite bind_math_sqrt by lra.
  pose proof (sqrt_lt_R0 _ Hpos).
  rewrite !bind_truediv by lra.
  reflexivity.
Qed.

Lemma gravity_below_threshold s a b :
  separation2 s a b < 1e-10 -> gravity s a b = (0, 0).
Proof.
  intros H. unfold gravity. cbv zeta.
  destruct (Rlt_dec _ _); [reflexivity | contradiction].
Qed.

Lemma gravity_antisymmetric s a b : gravity s b a = vneg (gravity s a b).
Proof.
  unfold gravity. cbv zeta. rewrite (separation2_sym s b a).
  destruct (Rlt_dec _ _) as [Hlt | Hge].
  - unfold vneg; cbv [fst snd]. f_equal; ring.
  - assert (Hr : sqrt (separation2 s a b) <> 0).
    { pose proof (sqrt_lt_R0 (separation2 s a b)). lra. }
    assert (Hs : separation2 s a b <> 0) by lra.
    unfold vneg; cbv [fst snd]. f_equal; field; auto.
Qed.

(** [update] on a body of positive mass is one Euler step on that body and
    touches nothing else; on a body of mass [<= 0] it returns at once. *)
Lemma update_euler s self fx fy dt :
  exists s',
    Classic.update self fx fy dt s = Done tt s'
    /\ bodies s' self =
         (if Rle_dec (CelestialBody.mass (bodies s self)) 0 then bodies s self
          else euler_step (bodies s self) fx fy dt)
    /\ (forall o, o <> self -> bodies s' o = bodies s o)
    /\ systems s' = systems s /\ entropy s' = entropy s
    /\ drawn s' = drawn s /\ log s' = log s
    /\ (CelestialBody.mass (bodies s self) <= 0 -> s' = s).
Proof.
  unfold Classic.update. rewrite bind_getattr.
  destruct (Rle_dec _ _) as [Hle | Hgt].
  - exists s. repeat split; auto.
  - rewrite bind_getattr, bind_truediv by lra.
    rewrite bind_getattr, bind_truediv by lra.
    eexists. split; [reflexivity |].
    cbn. rewrite !Nat.eqb_refl. cbn.
    repeat split; try reflexivity.
    + intros o Ho. apply Nat.eqb_neq in Ho. now rewrite Ho.
    + intros Hle. lra.
Qed.

End Bodies.

(** ** Loops *)

(** A loop whose body neither raises nor touches the state computes a fold;
    [P] is an invariant of the accumulator. *)
Lemma for_each_pure {A B} (P : B -> Prop) (l : list A) (body : B -> A -> M B)
    (g : B -> A -> B) s :
  (forall acc v, v ∈ l -> P acc -> body acc v s = Done (g acc v) s /\ P (g acc v)) ->
  forall acc, P acc ->
    for_each l body acc s = Done (fold_left g l acc) s /\ P (fold_left g l acc).
Proof.
  induction l as [| v l IH]; intros Hbody acc Hacc; cbn [for_each fold_left].
  - split; [reflexivity | exact Hacc].
  - destruct (Hbody acc v) as [Hv HP]; [left | exact Hacc |].
    rewrite (bind_done Hv).
    apply IH; [| exact HP].
    intros acc' v' Hin. apply Hbody. now right.
Qed.

(** Nested loops that thread one accumulator are one loop over the
    flattened sequence. *)
Lemma for_each_app {A B} (l1 l2 : list A) (body : B -> A -> M B) acc :
  forall s, for_each (l1 ++ l2) body acc s
            = bind (for_each l1 body acc) (for_each l2 body) s.
Proof.
  revert acc. induction l1 as [| v l1 IH]; intros acc s; cbn [for_each app].
  - reflexivity.
  - unfold bind. destruct (body acc v s) as [acc' s' | e s']; [| reflexivity].
    apply IH.
Qed.

Lemma for_each_flat_map {A B C} (f : A -> list C) (l : list A)
    (body : B -> C -> M B) acc :
  forall s, for_each l (fun acc a => for_each (f a) body acc) acc s
            = for_each (flat_map f l) body acc s.
Proof.
  revert acc. induction l as [| a l IH]; intros acc s; cbn [for_each flat_map].
  - reflexivity.
  - rewrite for_each_app. unfold bind.
    destruct (for_each (f a) body acc s); [apply IH | reflexivity].
Qed.

Lemma for_each_ext {A B} (l : list A) (body body' : B -> A -> M B) :
  (forall acc v s, body acc v s = body' acc v s) ->
  forall acc s, for_each l body acc s = for_each l body' acc s.
Proof.
  intros H. induction l as [| v l IH]; intros acc s; cbn [for_each]; [reflexivity |].
  unfold bind. rewrite H. destruct (body' acc v s); [apply IH | reflexivity].
Qed.

Lemma fold_left_flat_map {A B C} (f : A -> list C) (g : B -> C -> B) (l : list A) acc :
  fold_left (fun acc a => fold_left g (f a) acc) l acc = fold_left g (flat_map f l) acc.
Proof.
  revert acc. induction l as [| a l IH]; intros acc; cbn [fold_left flat_map].
  - reflexivity.
  - now rewrite fold_left_app, IH.
Qed.

(** ** The flattened body list *)

Lemma collect_bodies_all_bodies self s :
  Classic.collect_bodies self s = Done (all_bodies s self) s.
Proof.
  unfold Classic.collect_bodies, all_bodies. rewrite bind_get_system. cbv zeta.
  set (sys := systems s self).
  set (base := [StarSystem.primary sys] ++ _ ++ _ ++ _).
  assert (H : forall ps acc,
    for_each ps (fun bodies planet =>
        ms <- getattr CelestialBody.moons planet ;; ret (bodies ++ ms)) acc s
    = Done (acc ++ flat_map (fun p => CelestialBody.moons (bodies s p)) ps) s).
  { induction ps as [| p ps IH]; intros acc; cbn [for_each flat_map].
    - now rewrite app_nil_r.
    - rewrite bind_assoc, bind_getattr, bind_ret, IH. now rewrite <- app_assoc. }
  rewrite H. f_equal. subst base. now rewrite <- !app_assoc.
Qed.

Lemma all_bodies_length s self :
  (length (all_bodies s self) < 2)%nat ->
  StarSystem.planets (systems s self) = []
  /\ StarSystem.asteroids (systems s self) = []
  /\ StarSystem.stellar_remnants (systems s self) = []
  /\ all_bodies s self = [StarSystem.primary (systems s self)].
Proof.
  unfold all_bodies. cbv zeta.
  destruct (StarSystem.planets _) as [| p ps]; cbn; [| lia].
  destruct (StarSystem.asteroids _) as [| a ast]; cbn; [| lia].
  destruct (StarSystem.stellar_remnants _) as [| r rs]; cbn; [| lia].
  auto.
Qed.

(** ** The force accumulators *)

Section Forces.
Local Open Scope R_scope.

Lemma insert_as_alter {A} (g : A -> A) {l : list A} {i a} :
  l !! i = Some a -> <[i := g a]> l = alter g i l.
Proof.
  revert i. induction l as [| b l IH]; intros [| i] H; try discriminate.
  - injection H as ->. reflexivity.
  - cbn. f_equal. now apply IH.
Qed.

Lemma bind_iadd_0 {B} {forces i} v {f} {k : list (R * R) -> M B} {s} :
  forces !! i = Some f ->
  bind (iadd_0 forces i v) k s = k (<[i := (fst f + v, snd f)]> forces) s.
Proof. intros H. unfold iadd_0. now rewrite bind_assoc, (bind_getitem H), bind_ret. Qed.

Lemma bind_iadd_1 {B} {forces i} v {f} {k : list (R * R) -> M B} {s} :
  forces !! i = Some f ->
  bind (iadd_1 forces i v) k s = k (<[i := (fst f, snd f + v)]> forces) s.
Proof. intros H. unfold iadd_1. now rewrite bind_assoc, (bind_getitem H), bind_ret. Qed.

Lemma bind_isub_0 {B} {forces i} v {f} {k : list (R * R) -> M B} {s} :
  forces !! i = Some f ->
  bind (isub_0 forces i v) k s = k (<[i := (fst f - v, snd f)]> forces) s.
Proof. intros H. unfold isub_0. now rewrite bind_assoc, (bind_getitem H), bind_ret. Qed.

Lemma isub_1_done {forces i} v {f s} :
  forces !! i = Some f ->
  isub_1 forces i v s = Done (<[i := (fst f, snd f - v)]> forces) s.
Proof. intros H. unfold isub_1. now rewrite (bind_getitem H). Qed.

(** The four statements of the loop body, on a pair in range, are the
    contribution of that pair. *)
Lemma pair_body_contribute s (bodies : list loc) (forces : list (R * R)) i j :
  (i < length bodies)%nat -> (j < length bodies)%nat ->
  length forces = length bodies ->
  (bi <- getitem bodies i ;;
   bj <- getitem bodies j ;;
   f <- Classic.force_from bi bj ;;
   let fx := fst f in
   let fy := snd f in
   forces <- iadd_0 forces i fx ;;
   forces <- iadd_1 forces i fy ;;
   forces <- isub_0 forces j fx ;;
   isub_1 forces j fy) s
  = Done (contribute (force_between s bodies) forces (i, j)) s.
Proof.
  intros Hi Hj Hlen.
  destruct (lookup_lt_is_Some_2 bodies i Hi) as [bi Hbi].
  destruct (lookup_lt_is_Some_2 bodies j Hj) as [bj Hbj].
  rewrite (bind_getitem Hbi), (bind_getitem Hbj).
  rewrite (bind_done (force_from_gravity s bi bj)). cbv zeta.
  unfold contribute, force_between. cbn [fst snd]. rewrite Hbi, Hbj.
  set (f := gravity s bi bj).
  destruct (lookup_lt_is_Some_2 forces i) as [fi Hfi]; [lia |].
  rewrite (bind_iadd_0 _ Hfi).
  erewrite bind_iadd_1 by (apply list_lookup_insert_eq; lia).
  rewrite list_insert_insert_eq. cbn [fst snd].
  change (fst fi + fst f, snd fi + snd f) with ((fun v => vadd v f) fi).
  rewrite (insert_as_alter _ Hfi).
  set (forces' := alter _ i forces).
  destruct (lookup_lt_is_Some_2 forces' j) as [fj Hfj].
  { subst forces'. rewrite length_alter. lia. }
  rewrite (bind_isub_0 _ Hfj).
  erewrite isub_1_done by (apply list_lookup_insert_eq; subst forces'; rewrite length_alter; lia).
  rewrite list_insert_insert_eq. cbn [fst snd].
  change (fst fj - fst f, snd fj - snd f) with ((fun v => vsub v f) fj).
  now rewrite (insert_as_alter _ Hfj).
Qed.

Lemma contribute_length f forces p : length (contribute f forces p) = length forces.
Proof. unfold contribute. now rewrite !length_alter. Qed.

Lemma fold_left_fmap {A B C} (h : A -> C) (g : B -> C -> B) (l : list A) acc :
  fold_left g (map h l) acc = fold_left (fun acc a => g acc (h a)) l acc.
Proof. revert acc. induction l as [| a l IH]; intros acc; cbn; [reflexivity | apply IH]. Qed.

Lemma elem_of_range lo hi k : k ∈ range lo hi <-> (lo <= k < hi)%nat.
Proof. unfold range. rewrite elem_of_seq. lia. Qed.

(** [pairwise_forces] returns the accumulators [net_forces] and leaves the
    state as it found it. *)
Lemma pairwise_forces_net s (bodies : list loc) :
  Classic.pairwise_forces bodies s = Done (net_forces s bodies) s.
Proof.
  unfold Classic.pairwise_forces, net_forces, pairs. cbv zeta.
  set (n := length bodies). set (fb := force_between s bodies).
  rewrite <- fold_left_flat_map.
  apply (for_each_pure (fun F => length F = n)); [| apply length_replicate].
  intros acc i Hi Hacc. apply elem_of_range in Hi.
  rewrite fold_left_fmap.
  apply (for_each_pure (fun F => length F = n)); [| exact Hacc].
  intros acc' j Hj Hacc'. apply elem_of_range in Hj.
  split.
  - apply pair_body_contribute; subst n; lia.
  - now rewrite contribute_length.
Qed.

Lemma net_forces_length s (bodies : list loc) :
  length (net_forces s bodies) = length bodies.
Proof.
  unfold net_forces. generalize (pairs (length bodies)).
  assert (H : forall ps F, length (fold_left (contribute (force_between s bodies)) ps F)
                           = length F).
  { induction ps as [| p ps IH]; intros F; cbn; [reflexivity |].
    now rewrite IH, contribute_length. }
  intros ps. now rewrite H, length_replicate.
Qed.

(** *** Every pair once *)

Lemma elem_of_pairs n i j : (i, j) ∈ pairs n <-> (i < j < n)%nat.
Proof.
  unfold pairs. rewrite list_elem_of_In, in_flat_map. split.
  - intros (i' & Hi' & Hin). apply in_map_iff in Hin as (j' & [= <- <-] & Hj').
    apply list_elem_of_In, elem_of_range in Hi'.
    apply list_elem_of_In, elem_of_range in Hj'. lia.
  - intros H. exists i. split.
    + apply list_elem_of_In, elem_of_range. lia.
    + apply in_map. apply list_elem_of_In, elem_of_range. lia.
Qed.

Lemma NoDup_pairs n : NoDup (pairs n).
Proof.
  unfold pairs, range.
  assert (H : forall l : list nat, NoDup l ->
    NoDup (flat_map (fun i => map (pair i) (seq (i + 1) (n - (i + 1)))) l)).
  { induction l as [| i l IH]; intros Hl; cbn [flat_map]; [constructor |].
    apply NoDup_cons in Hl as [Hi Hl].
    apply NoDup_app. split; [| split].
    - apply (NoDup_fmap_2 _). apply NoDup_seq.
    - intros [a b] Ha Hb. apply list_elem_of_In, in_map_iff in Ha as (j & [= <- <-] & _).
      apply list_elem_of_In, in_flat_map in Hb as (i' & Hi' & Hb).
      apply in_map_iff in Hb as (j' & [= <- _] & _).
      apply Hi. now apply list_elem_of_In.
    - now apply IH. }
  apply H, NoDup_seq.
Qed.

(** *** Action and reaction cancel *)

Lemma sum_forces_alter_vadd d (l : list (R * R)) i :
  (i < length l)%nat ->
  sum_forces (alter (fun v => vadd v d) i l) = vadd (sum_forces l) d.
Proof.
  revert i. induction l as [| v l IH]; intros [| i] H; cbn in H; try lia.
  - cbn. unfold vadd. cbn [fst snd]. f_equal; ring.
  - cbn [alter list_alter]. change (sum_forces (?a :: ?r)) with (vadd a (sum_forces r)).
    fold (alter (fun v => vadd v d) i l).
    rewrite IH by lia. unfold vadd. cbn [fst snd]. f_equal; ring.
Qed.

Lemma sum_forces_alter_vsub d (l : list (R * R)) i :
  (i < length l)%nat ->
  sum_forces (alter (fun v => vsub v d) i l) = vsub (sum_forces l) d.
Proof.
  revert i. induction l as [| v l IH]; intros [| i] H; cbn in H; try lia.
  - cbn. unfold vadd, vsub. cbn [fst snd]. f_equal; ring.
  - cbn [alter list_alter]. change (sum_forces (?a :: ?r)) with (vadd a (sum_forces r)).
    fold (alter (fun v => vsub v d) i l).
    rewrite IH by lia. unfold vadd, vsub. cbn [fst snd]. f_equal; ring.
Qed.

Lemma sum_forces_contribute f (forces : list (R * R)) i j :
  (i < length forces)%nat -> (j < length forces)%nat ->
  sum_forces (contribute f forces (i, j)) = sum_forces forces.
Proof.
  intros Hi Hj. unfold contribute. cbn [fst snd].
  rewrite sum_forces_alter_vsub by (rewrite length_alter; lia).
  rewrite sum_forces_alter_vadd by lia.
  destruct (sum_forces forces) as [a b]. unfold vadd, vsub. cbn [fst snd].
  f_equal; ring.
Qed.

Lemma sum_forces_replicate n : sum_forces (replicate n (0, 0)) = (0, 0).
Proof.
  induction n as [| n IH]; [reflexivity |].
  cbn [replicate]. change (sum_forces (?a :: ?r)) with (vadd a (sum_forces r)).
  rewrite IH. unfold vadd. cbn [fst snd]. f_equal; ring.
Qed.

Lemma sum_forces_net s (bodies : list loc) :
  sum_forces (net_forces s bodies) = (0, 0).
Proof.
  unfold net_forces. set (n := length bodies).
  assert (H : forall ps F, length F = n ->
    (forall i j, (i, j) ∈ ps -> (i < j < n)%nat) ->
    sum_forces (fold_left (contribute (force_between s bodies)) ps F) = sum_forces F).
  { induction ps as [| [i j] ps IH]; intros F HF Hps; cbn [fold_left]; [reflexivity |].
    assert (i < j < n)%nat by (apply Hps; left).
    rewrite IH.
    - apply sum_forces_contribute; lia.
    - now rewrite contribute_length.
    - intros i' j' Hin. apply Hps. now right. }
  rewrite H; [apply sum_forces_replicate | apply length_replicate |].
  intros i j. apply elem_of_pairs.
Qed.

End Forces.

(** ** [StarSystem.integrate] *)

Section Integrate.
Local Open Scope R_scope.

Lemma same_static_refl s : same_static s s.
Proof. split; intros; auto. Qed.

Lemma same_static_trans s1 s2 s3 :
  same_static s1 s2 -> same_static s2 s3 -> same_static s1 s3.
Proof.
  intros [Hb Hs] [Hb' Hs']. split.
  - intros o. destruct (Hb o) as (? & ? & ?), (Hb' o) as (? & ? & ?).
    repeat split; congruence.
  - intros ss. now rewrite Hs', Hs.
Qed.

Lemma kinematics_only_refl s : kinematics_only s s.
Proof. repeat split; auto. Qed.

Lemma kinematics_only_trans s1 s2 s3 :
  kinematics_only s1 s2 -> kinematics_only s2 s3 -> kinematics_only s1 s3.
Proof.
  intros (H & ? & ? & ?) (H' & ? & ? & ?).
  split; [eapply same_static_trans; eauto |]. repeat split; congruence.
Qed.

(** [update] always returns, and writes positions and velocities only. *)
Lemma update_kinematics_only s self fx fy dt :
  exists s', Classic.update self fx fy dt s = Done tt s' /\ kinematics_only s s'.
Proof.
  destruct (update_euler s self fx fy dt)
    as (s' & Hrun & Hself & Hother & Hsys & Hent & Hdrawn & Hlog & _).
  exists s'. split; [exact Hrun |].
  repeat split; auto; try (now rewrite Hsys).
  all: destruct (Nat.eq_dec o self) as [-> | Hne];
    [ rewrite Hself; destruct (Rle_dec _ _); reflexivity
    | now rewrite (Hother o Hne) ].
Qed.

Lemma update_loop_kinematics_only (l : list (loc * (R * R))) dt s :
  exists s',
    for_each l (fun _ bf => Classic.update (fst bf) (fst (snd bf)) (snd (snd bf)) dt) tt s
    = Done tt s' /\ kinematics_only s s'.
Proof.
  revert s. induction l as [| bf l IH]; intros s; cbn [for_each].
  - exists s. split; [reflexivity | apply kinematics_only_refl].
  - destruct (update_kinematics_only s (fst bf) (fst (snd bf)) (snd (snd bf)) dt)
      as (s1 & H1 & K1).
    rewrite (bind_done H1).
    destruct (IH s1) as (s2 & H2 & K2).
    exists s2. split; [exact H2 | eapply kinematics_only_trans; eauto].
Qed.

(** [integrate] unfolded: nothing below two bodies, otherwise one [update]
    per body with its accumulated force. *)
Lemma integrate_unfold self dt s :
  Classic.integrate self dt s =
    if (length (all_bodies s self) <? 2)%nat then Done tt s
    else for_each (zip (all_bodies s self) (net_forces s (all_bodies s self)))
           (fun _ bf => Classic.update (fst bf) (fst (snd bf)) (snd (snd bf)) dt) tt s.
Proof.
  unfold Classic.integrate.
  rewrite (bind_done (collect_bodies_all_bodies self s)). cbv zeta.
  destruct (_ <? 2)%nat; [reflexivity |].
  now rewrite (bind_done (pairwise_forces_net s _)).
Qed.

(** [integrate] always returns, and writes positions and velocities only. *)
Lemma integrate_kinematics_only self dt s :
  exists s', Classic.integrate self dt s = Done tt s' /\ kinematics_only s s'.
Proof.
  rewrite integrate_unfold. destruct (_ <? 2)%nat.
  - exists s. split; [reflexivity | apply kinematics_only_refl].
  - apply update_loop_kinematics_only.
Qed.

Lemma all_bodies_static s s' ss :
  same_static s s' -> all_bodies s' ss = all_bodies s ss.
Proof.
  intros [Hb Hs]. unfold all_bodies. cbv zeta. rewrite Hs.
  do 4 f_equal. apply flat_map_ext. intros p. apply Hb.
Qed.

End Integrate.

(** ** The quantum event *)

Section QuantumEvent.

Lemma chosen_nil {A} s k : chosen (@nil A) s k = None.
Proof. reflexivity. Qed.

Lemma chosen_consume {A} (seq : list A) s k :
  chosen seq (consume s) k = chosen seq s (S k).
Proof. unfold chosen. cbn [entropy drawn consume]. do 3 f_equal. lia. Qed.

Lemma random_choice_cons {A} (a : A) l s :
  exists c, random_choice (a :: l) s = Done c (consume s)
            /\ chosen (a :: l) s 0 = Some c /\ c ∈ a :: l.
Proof.
  unfold random_choice, chosen. rewrite Nat.add_0_r.
  set (i := (entropy s (drawn s) mod length (a :: l))%nat).
  assert (Hi : (i < length (a :: l))%nat).
  { subst i. apply Nat.mod_upper_bound. cbn. lia. }
  destruct (lookup_lt_is_Some_2 _ _ Hi) as [c Hc].
  exists c. rewrite (nth_lookup_Some _ _ _ _ Hc).
  repeat split; [exact Hc |]. eapply list_elem_of_lookup_2, Hc.
Qed.

Lemma try_except_done {A} (body : M A) handled handler s a s' :
  body s = Done a s' -> try_except body handled handler s = Done a s'.
Proof. intros H. unfold try_except. now rewrite H. Qed.

(** The guarded walk of classic_universe.py never raises. *)
Lemma classic_quantum_event u k s :
  exists s', Classic._random_quantum_event u k s = Done tt s' /\ event_outcome u k s s'.
Proof.
  unfold Classic._random_quantum_event, event_outcome, sampled_system.
  destruct (Universe.superclusters u) as [| sc0 scs].
  { exists s. split; [reflexivity | now rewrite chosen_nil]. }
  destruct (random_choice_cons sc0 scs s) as (sc & Hsc & -> & _).
  destruct (SuperCluster.galaxy_clusters sc) as [| gc0 gcs] eqn:Egc.
  { exists (consume s). split.
    - apply try_except_done. now rewrite (bind_done Hsc), Egc.
    - now rewrite chosen_nil. }
  destruct (random_choice_cons gc0 gcs (consume s)) as (gc & Hgc & Cgc & _).
  rewrite chosen_consume in Cgc. rewrite Cgc.
  destruct (GalaxyCluster.galaxies gc) as [| gal0 gals] eqn:Egal.
  { exists (consume (consume s)). split.
    - apply try_except_done.
      now rewrite (bind_done Hsc), Egc, (bind_done Hgc), Egal.
    - now rewrite chosen_nil. }
  destruct (random_choice_cons gal0 gals (consume (consume s))) as (gal & Hgal & Cgal & _).
  rewrite !chosen_consume in Cgal. rewrite Cgal.
  destruct (Galaxy.star_systems gal) as [| ss0 sss] eqn:Ess.
  { exists (consume (consume (consume s))). split.
    - apply try_except_done.
      now rewrite (bind_done Hsc), Egc, (bind_done Hgc), Egal,
        (bind_done Hgal), Ess.
    - now rewrite chosen_nil. }
  destruct (random_choice_cons ss0 sss (consume (consume (consume s))))
    as (ss & Hss & Css & _).
  rewrite !chosen_consume in Css. rewrite Css.
  destruct (random_choice_cons "up"%string ["down"%string]
              (consume (consume (consume (consume s))))) as (spin & Hspin & _ & Hin).
  eexists. split.
  - apply try_except_done.
    rewrite (bind_done Hsc), Egc, (bind_done Hgc), Egal,
      (bind_done Hgal), Ess, (bind_done Hss),
      (bind_done Hspin), bind_get_system, bind_getattr.
    reflexivity.
  - repeat split. exists spin. split; [| reflexivity].
    apply elem_of_cons in Hin as [-> | Hin]; [now left |].
    apply list_elem_of_singleton in Hin as ->. now right.
Qed.

(** The unguarded walk of butterfly_effect.py ends the same way: what the
    guards of the other file return on, [except Exception: pass] swallows. *)
Lemma butterfly_quantum_event u k s :
  Butterfly._random_quantum_event u k s = Classic._random_quantum_event u k s.
Proof.
  unfold Butterfly._random_quantum_event, Classic._random_quantum_event, try_except.
  destruct (Universe.superclusters u) as [| sc0 scs]; [reflexivity |].
  destruct (random_choice_cons sc0 scs s) as (sc & Hsc & _).
  rewrite !(bind_done Hsc).
  destruct (SuperCluster.galaxy_clusters sc) as [| gc0 gcs]; [reflexivity |].
  destruct (random_choice_cons gc0 gcs (consume s)) as (gc & Hgc & _).
  rewrite !(bind_done Hgc).
  destruct (GalaxyCluster.galaxies gc) as [| gal0 gals]; [reflexivity |].
  destruct (random_choice_cons gal0 gals (consume (consume s))) as (gal & Hgal & _).
  rewrite !(bind_done Hgal).
  destruct (Galaxy.star_systems gal) as [| ss0 sss]; [reflexivity |].
  destruct (random_choice_cons ss0 sss (consume (consume (consume s))))
    as (ss & Hss & _).
  destruct (random_choice_cons "up"%string ["down"%string]
              (consume (consume (consume (consume s))))) as (spin & Hspin & _).
  rewrite !(bind_done Hss), !(bind_done Hspin).
  reflexivity.
Qed.

Lemma meets_empty_sampled_system u s :
  meets_empty u s <-> sampled_system u s = None.
Proof.
  unfold sampled_system. split.
  - intros [H | sc H1 H2 | sc gc H1 H2 H3 | sc gc gal H1 H2 H3 H4].
    + now rewrite H, chosen_nil.
    + now rewrite H1, H2, chosen_nil.
    + now rewrite H1, H2, H3, chosen_nil.
    + now rewrite H1, H2, H3, H4, chosen_nil.
  - intros H.
    destruct (chosen (Universe.superclusters u) s 0) as [sc |] eqn:H1.
    2: { apply no_supercluster. unfold chosen in H1.
         apply lookup_ge_None_1 in H1.
         destruct (Universe.superclusters u) as [| a l]; [reflexivity |].
         pose proof (Nat.mod_upper_bound (entropy s (drawn s + 0)) (length (a :: l))).
         cbn [length] in *. lia. }
    destruct (chosen (SuperCluster.galaxy_clusters sc) s 1) as [gc |] eqn:H2.
    2: { apply (no_galaxy_cluster u s sc H1). unfold chosen in H2.
         apply lookup_ge_None_1 in H2.
         destruct (SuperCluster.galaxy_clusters sc) as [| a l]; [reflexivity |].
         pose proof (Nat.mod_upper_bound (entropy s (drawn s + 1)) (length (a :: l))).
         cbn [length] in *. lia. }
    destruct (chosen (GalaxyCluster.galaxies gc) s 2) as [gal |] eqn:H3.
    2: { apply (no_galaxy u s sc gc H1 H2). unfold chosen in H3.
         apply lookup_ge_None_1 in H3.
         destruct (GalaxyCluster.galaxies gc) as [| a l]; [reflexivity |].
         pose proof (Nat.mod_upper_bound (entropy s (drawn s + 2)) (length (a :: l))).
         cbn [length] in *. lia. }
    apply (no_star_system u s sc gc gal H1 H2 H3). unfold chosen in H.
    apply lookup_ge_None_1 in H.
    destruct (Galaxy.star_systems gal) as [| a l]; [reflexivity |].
    pose proof (Nat.mod_upper_bound (entropy s (drawn s + 3)) (length (a :: l))).
    cbn [length] in *. lia.
Qed.

End QuantumEvent.

(** ** [Universe.run] *)

Section Run.

Lemma bind_emit {B} e (k : unit -> M B) s : bind (emit e) k s = k tt (record e s).
Proof. reflexivity. Qed.

Lemma ran_refl s : ran s s [].
Proof. repeat split; auto. now rewrite app_nil_r. Qed.

Lemma ran_trans {s1 s2 s3 new new'} :
  ran s1 s2 new -> ran s2 s3 new' -> ran s1 s3 (new ++ new').
Proof.
  intros (H & He & Hl) (H' & He' & Hl').
  split; [eapply same_static_trans; eauto |].
  split; [congruence |]. now rewrite Hl', Hl, app_assoc.
Qed.

Lemma ran_record e s : ran s (record e s) [e].
Proof. repeat split; auto. Qed.

Lemma ran_kinematics_only {s s'} : kinematics_only s s' -> ran s s' [].
Proof. intros (H & He & _ & Hl). repeat split; try apply H; auto. now rewrite app_nil_r. Qed.

Lemma ran_event {u k s s'} :
  event_outcome u k s s' ->
  exists new, ran s s' new /\ calls new = []
              /\ (sampled_system u s = None -> new = []).
Proof.
  intros (Hb & Hs & He & Hl).
  assert (Hst : same_static s s').
  { split; intros; [rewrite Hb | rewrite Hs]; auto. }
  destruct (sampled_system u s) as [ss |].
  - destruct Hl as (spin & _ & Hl). eexists. split; [| split].
    + split; [exact Hst | split; [exact He | exact Hl]].
    + reflexivity.
    + discriminate.
  - exists []. split; [| split; auto].
    split; [exact Hst | split; [exact He | now rewrite app_nil_r]].
Qed.

Lemma calls_app l l' : calls (l ++ l') = calls l ++ calls l'.
Proof. unfold calls. apply List.filter_app. Qed.

Lemma calls_map_CallIntegrate l : calls (map CallIntegrate l) = map CallIntegrate l.
Proof. induction l as [| a l IH]; cbn; [reflexivity | now f_equal]. Qed.

(** The pass over the hierarchy visits the reachable systems in order. *)
Lemma classic_integrate_all_flat u dt s :
  Classic.integrate_all u dt s =
    for_each (reachable_systems u)
      (fun total_systems ss =>
         emit (CallIntegrate ss) ;; Classic.integrate ss dt ;; ret (total_systems + 1)%Z)
      0%Z s.
Proof.
  unfold Classic.integrate_all, reachable_systems.
  rewrite <- for_each_flat_map. apply for_each_ext. intros acc sc s1.
  rewrite <- for_each_flat_map. apply for_each_ext. intros acc' gc s2.
  now rewrite <- for_each_flat_map.
Qed.

Lemma butterfly_integrate_all_flat u dt s :
  Butterfly.integrate_all u dt s =
    for_each (reachable_systems u)
      (fun _ ss => emit (CallIntegrate ss) ;; Classic.integrate ss dt) tt s.
Proof.
  unfold Butterfly.integrate_all, reachable_systems.
  rewrite <- for_each_flat_map. apply for_each_ext. intros [] sc s1.
  rewrite <- for_each_flat_map. apply for_each_ext. intros [] gc s2.
  rewrite <- for_each_flat_map. apply for_each_ext. now intros [] gal s3.
Qed.

(** A loop over systems whose body makes the call [ss.integrate(dt)] and
    nothing else that shows. *)
Lemma integrate_loop {B} (body : B -> loc -> M B) (l : list loc) :
  (forall acc ss s, exists acc' s',
      body acc ss s = Done acc' s' /\ ran s s' [CallIntegrate ss]) ->
  forall acc s, exists acc' s',
    for_each l body acc s = Done acc' s' /\ ran s s' (map CallIntegrate l).
Proof.
  intros Hbody. induction l as [| ss l IH]; intros acc s; cbn [for_each map].
  - exists acc, s. split; [reflexivity | apply ran_refl].
  - destruct (Hbody acc ss s) as (acc1 & s1 & H1 & R1).
    rewrite (bind_done H1).
    destruct (IH acc1 s1) as (acc2 & s2 & H2 & R2).
    exists acc2, s2. split; [exact H2 |].
    apply (ran_trans R1 R2).
Qed.

Lemma classic_integrate_all u dt s :
  exists t s', Classic.integrate_all u dt s = Done t s'
               /\ ran s s' (map CallIntegrate (reachable_systems u)).
Proof.
  rewrite classic_integrate_all_flat. apply integrate_loop.
  intros acc ss s0. rewrite bind_emit.
  destruct (integrate_kinematics_only ss dt (record (CallIntegrate ss) s0)) as (s1 & H1 & K1).
  rewrite (bind_done H1).
  eexists _, s1. split; [reflexivity |].
  apply (ran_trans (ran_record _ _) (ran_kinematics_only K1)).
Qed.

Lemma butterfly_integrate_all u dt s :
  exists s', Butterfly.integrate_all u dt s = Done tt s'
             /\ ran s s' (map CallIntegrate (reachable_systems u)).
Proof.
  rewrite butterfly_integrate_all_flat.
  destruct (integrate_loop
    (fun (_ : unit) ss => emit (CallIntegrate ss) ;; Classic.integrate ss dt)
    (reachable_systems u)) with (acc := tt) (s := s) as ([] & s' & H & R).
  - intros acc ss s0. rewrite bind_emit.
    destruct (integrate_kinematics_only ss dt (record (CallIntegrate ss) s0)) as (s1 & H1 & K1).
    exists tt, s1. split; [exact H1 |].
    apply (ran_trans (ran_record _ _) (ran_kinematics_only K1)).
  - now exists s'.
Qed.

(** The quantum event of a step, with the ghost event that marks the call. *)
Lemma step_event u k s :
  exists s' new,
    (if (k mod 2 =? 0)%Z
     then emit (CallQuantumEvent k) ;; Classic._random_quantum_event u k
     else ret tt) s = Done tt s'
    /\ ran s s' new
    /\ calls new = (if (k mod 2 =? 0)%Z then [CallQuantumEvent k] else [])
    /\ ((forall s0, sampled_system u s0 = None) -> List.filter is_measurement new = []).
Proof.
  destruct (k mod 2 =? 0)%Z.
  - rewrite bind_emit.
    destruct (classic_quantum_event u k (record (CallQuantumEvent k) s)) as (s' & H & O).
    destruct (ran_event O) as (new & R & C & E).
    exists s', ([CallQuantumEvent k] ++ new). split; [exact H | split; [| split]].
    + apply (ran_trans (ran_record _ _) R).
    + rewrite calls_app, C. reflexivity.
    + intros Hno. now rewrite (E (Hno _)).
  - exists s, []. split; [reflexivity | split; [apply ran_refl | split; reflexivity]].
Qed.

Lemma measurements_map_CallIntegrate l :
  List.filter is_measurement (map CallIntegrate l) = [].
Proof. induction l; [reflexivity | assumption]. Qed.

(** The loop of classic_universe.py: it returns, with [total_systems]
    bound as soon as one step ran. *)
Lemma classic_loop u dt (ks : list Z) :
  forall t0 s, exists t s' new,
    for_each ks
      (fun (_ : option Z) k =>
         total_systems <- Classic.integrate_all u dt ;;
         (if (k mod 2 =? 0)%Z
          then emit (CallQuantumEvent k) ;; Classic._random_quantum_event u k
          else ret tt) ;;
         ret (Some total_systems)) t0 s = Done t s'
    /\ ran s s' new
    /\ calls new = flat_map (calls_of_step u) ks
    /\ ((forall s0, sampled_system u s0 = None) -> List.filter is_measurement new = [])
    /\ (ks = [] -> t = t0) /\ (ks <> [] -> t <> None).
Proof.
  induction ks as [| k ks IH]; intros t0 s; cbn [for_each flat_map].
  - exists t0, s, [].
    split; [reflexivity | split; [apply ran_refl | split; [reflexivity |]]].
    split; [reflexivity | split; [reflexivity | congruence]].
  - destruct (classic_integrate_all u dt s) as (t1 & s1 & H1 & R1).
    rewrite bind_assoc, (bind_done H1).
    destruct (step_event u k s1) as (s2 & new2 & H2 & R2 & C2 & M2).
    rewrite bind_assoc, (bind_done H2), bind_ret.
    destruct (IH (Some t1) s2) as (t3 & s3 & new3 & H3 & R3 & C3 & M3 & E3 & N3).
    exists t3, s3, ((map CallIntegrate (reachable_systems u) ++ new2) ++ new3).
    split; [exact H3 | split; [| split; [| split; [| split]]]].
    + apply (ran_trans (ran_trans R1 R2) R3).
    + rewrite !calls_app, calls_map_CallIntegrate, C2, C3. reflexivity.
    + intros Hno.
      now rewrite !List.filter_app, measurements_map_CallIntegrate, (M2 Hno), (M3 Hno).
    + discriminate.
    + intros _. destruct ks; [rewrite E3 by reflexivity; discriminate | apply N3; discriminate].
Qed.

Lemma butterfly_loop u dt (ks : list Z) :
  forall s, exists s' new,
    for_each ks
      (fun (_ : unit) k =>
         Butterfly.integrate_all u dt ;;
         if (k mod 2 =? 0)%Z
         then emit (CallQuantumEvent k) ;; Butterfly._random_quantum_event u k
         else ret tt) tt s = Done tt s'
    /\ ran s s' new
    /\ calls new = flat_map (calls_of_step u) ks
    /\ ((forall s0, sampled_system u s0 = None) -> List.filter is_measurement new = []).
Proof.
  induction ks as [| k ks IH]; intros s; cbn [for_each flat_map].
  - exists s, []. split; [reflexivity | split; [apply ran_refl | split; reflexivity]].
  - destruct (butterfly_integrate_all u dt s) as (s1 & H1 & R1).
    rewrite bind_assoc, (bind_done H1).
    destruct (step_event u k s1) as (s2 & new2 & H2 & R2 & C2 & M2).
    assert (H2' : (if (k mod 2 =? 0)%Z
                   then emit (CallQuantumEvent k) ;; Butterfly._random_quantum_event u k
                   else ret tt) s1 = Done tt s2).
    { rewrite <- H2. destruct (k mod 2 =? 0)%Z; [| reflexivity].
      rewrite !bind_emit. apply butterfly_quantum_event. }
    rewrite (bind_done H2').
    destruct (IH s2) as (s3 & new3 & H3 & R3 & C3 & M3).
    exists s3, ((map CallIntegrate (reachable_systems u) ++ new2) ++ new3).
    split; [exact H3 | split; [| split]].
    + apply (ran_trans (ran_trans R1 R2) R3).
    + rewrite !calls_app, calls_map_CallIntegrate, C2, C3. reflexivity.
    + intros Hno.
      now rewrite !List.filter_app, measurements_map_CallIntegrate, (M2 Hno), (M3 Hno).
Qed.

Lemma range_int_nonempty steps : (0 < steps)%Z -> range_int steps <> [].
Proof.
  intros H. unfold range_int.
  destruct (Z.to_nat steps) as [| n] eqn:E; [lia | discriminate].
Qed.

(** [run] of classic_universe.py returns when it is asked for at least one
    step; the calls it makes are those of its steps. *)
Lemma classic_run u steps dt s :
  (0 < steps)%Z ->
  exists s' new,
    Classic.run u steps dt s = Done tt s' /\ ran s s' new
    /\ calls new = flat_map (calls_of_step u) (range_int steps)
    /\ ((forall s0, sampled_system u s0 = None) -> List.filter is_measurement new = []).
Proof.
  intros Hsteps. unfold Classic.run. rewrite bind_emit.
  destruct (classic_loop u dt (range_int steps) None (record (PrintRunning steps) s))
    as (t & s1 & new & H & R & C & Mn & _ & N).
  rewrite (bind_done H).
  destruct t as [t |]; [| now destruct (N (range_int_nonempty _ Hsteps))].
  exists (record (PrintComplete t) s1), (([PrintRunning steps] ++ new) ++ [PrintComplete t]).
  split; [reflexivity | split; [| split]].
  - apply (ran_trans (ran_trans (ran_record _ _) R) (ran_record _ _)).
  - rewrite !calls_app, C. cbn. now rewrite app_nil_r.
  - intros Hno. now rewrite !List.filter_app, (Mn Hno).
Qed.

(** Asked for no step, it reads [total_systems] before any assignment. *)
Lemma classic_run_no_step u steps dt s :
  (steps <= 0)%Z ->
  Classic.run u steps dt s = Raised UnboundLocalError (record (PrintRunning steps) s).
Proof.
  intros H. unfold Classic.run, range_int.
  replace (Z.to_nat steps) with 0%nat by lia. reflexivity.
Qed.

Lemma butterfly_run u steps dt s :
  exists s' new,
    Butterfly.run u steps dt s = Done tt s' /\ ran s s' new
    /\ calls new = flat_map (calls_of_step u) (range_int steps)
    /\ ((forall s0, sampled_system u s0 = None) -> List.filter is_measurement new = []).
Proof. apply butterfly_loop. Qed.

Lemma butterfly_run_no_step u steps dt s :
  (steps <= 0)%Z -> Butterfly.run u steps dt s = Done tt s.
Proof.
  intros H. unfold Butterfly.run, range_int.
  replace (Z.to_nat steps) with 0%nat by lia. reflexivity.
Qed.

(** In whatever way [run] ends, it has written positions and velocities
    only. *)
Lemma classic_run_static u steps dt s :
  same_static s (final (Classic.run u steps dt s)).
Proof.
  destruct (Z_lt_le_dec 0 steps) as [Hpos | Hle].
  - destruct (classic_run u steps dt s Hpos) as (s' & new & -> & R & _). apply R.
  - rewrite (classic_run_no_step u steps dt s Hle). apply (ran_record _ s).
Qed.

Lemma butterfly_run_static u steps dt s :
  same_static s (final (Butterfly.run u steps dt s)).
Proof.
  destruct (butterfly_run u steps dt s) as (s' & new & -> & R & _). apply R.
Qed.

(** *** Readings of the calls *)

Lemma integrations_calls l :
  List.filter is_integration (calls l) = List.filter is_integration l.
Proof.
  unfold calls. induction l as [| e l IH]; [reflexivity |].
  cbn [List.filter]. destruct e; cbn [is_call is_integration List.filter]; now rewrite ?IH.
Qed.

Lemma quantum_events_calls l : quantum_events (calls l) = quantum_events l.
Proof.
  unfold calls, quantum_events. induction l as [| e l IH]; [reflexivity |].
  cbn [List.filter]. destruct e; cbn [is_call is_quantum_event List.filter]; now rewrite ?IH.
Qed.

(** *** The empty universe *)

Lemma no_supercluster_no_sample u s :
  Universe.superclusters u = [] -> sampled_system u s = None.
Proof. intros H. unfold sampled_system. now rewrite H, chosen_nil. Qed.

Lemma no_supercluster_no_system u :
  Universe.superclusters u = [] -> reachable_systems u = [].
Proof. intros H. unfold reachable_systems. now rewrite H. Qed.

End Run.

(** *** A run around one quantum event *)

Lemma map_seq_from {A} (f : nat -> A) a n :
  map f (seq a n) = map (fun i => f (a + i)%nat) (seq 0 n).
Proof.
  revert a. induction n as [| n IH]; intros a; cbn [seq map]; [reflexivity |].
  rewrite Nat.add_0_r. f_equal.
  rewrite (IH (S a)), <- seq_shift, map_map.
  apply map_ext. intros i. f_equal. lia.
Qed.

Lemma range_int_split steps k :
  (0 <= k < steps)%Z -> range_int steps = range_int k ++ k :: later_steps steps k.
Proof.
  intros Hk. unfold later_steps, range_int.
  replace (Z.to_nat steps) with (Z.to_nat k + S (Z.to_nat (steps - k - 1)))%nat by lia.
  rewrite seq_app, map_app. cbn [seq map Nat.add]. f_equal.
  rewrite Z2Nat.id by lia. f_equal.
  rewrite (map_seq_from Z.of_nat), map_map.
  apply map_ext. intros i. lia.
Qed.

Lemma classic_run_around_event u steps dt k s0 :
  (0 <= k < steps)%Z -> (k mod 2 = 0)%Z ->
  Classic.run u steps dt s0
  = (total_systems <- classic_until_event u steps dt k ;;
     Classic._random_quantum_event u k ;;
     classic_after_event u steps dt k total_systems) s0.
Proof.
  intros Hk Heven. apply Z.eqb_eq in Heven.
  unfold Classic.run, classic_until_event, classic_after_event, classic_steps.
  rewrite (range_int_split steps k Hk), bind_emit.
  unfold bind at 1. rewrite for_each_app.
  cbn [for_each]. rewrite Heven. unfold bind, emit, ret.
  destruct (for_each (range_int k) _ None (record (PrintRunning steps) s0))
    as [t1 s1 | e s1]; [| reflexivity].
  destruct (Classic.integrate_all u dt s1) as [t s2 | e s2]; [| reflexivity].
  destruct (Classic._random_quantum_event u k (record (CallQuantumEvent k) s2))
    as [[] s3 | e s3]; reflexivity.
Qed.

Lemma butterfly_run_around_event u steps dt k s0 :
  (0 <= k < steps)%Z -> (k mod 2 = 0)%Z ->
  Butterfly.run u steps dt s0
  = (butterfly_until_event u dt k ;;
     Butterfly._random_quantum_event u k ;;
     butterfly_steps u dt (later_steps steps k)) s0.
Proof.
  intros Hk Heven. apply Z.eqb_eq in Heven.
  unfold Butterfly.run, butterfly_until_event, butterfly_steps.
  rewrite (range_int_split steps k Hk), for_each_app.
  cbn [for_each]. rewrite Heven. unfold bind, emit.
  destruct (for_each (range_int k) _ tt s0) as [[] s1 | e s1]; [| reflexivity].
  destruct (Butterfly.integrate_all u dt s1) as [[] s2 | e s2]; [| reflexivity].
  destruct (Butterfly._random_quantum_event u k (record (CallQuantumEvent k) s2))
    as [[] s3 | e s3]; reflexivity.
Qed.

Lemma barren_meets_empty s : meets_empty barren_universe s.
Proof.
  apply meets_empty_sampled_system.
  unfold sampled_system, chosen, barren_universe.
  cbn [Universe.superclusters length]. rewrite Nat.mod_1_r.
  cbn [lookup list_lookup SuperCluster.galaxy_clusters length]. rewrite Nat.mod_1_r.
  cbn [lookup list_lookup GalaxyCluster.galaxies length]. rewrite Nat.mod_1_r.
  reflexivity.
Qed.

(** ** The model at work *)

Example pairs_of_three : pairs 3 = [(0, 1); (0, 2); (1, 2)]%nat.
Proof. reflexivity. Qed.

Example range_int_six : range_int 6 = [0; 1; 2; 3; 4; 5]%Z.
Proof. reflexivity. Qed.

Example range_int_negative : range_int (-3) = [].
Proof. reflexivity. Qed.

Example demo_universe_systems : reachable_systems demo_universe = [0%nat].
Proof. reflexivity. Qed.

Example solar_system_bodies : all_bodies two_body_state 0 = [0; 1]%nat.
Proof. reflexivity. Qed.

(** Two steps over the empty universe in classic_universe.py: the two lines
    of [run], and the one event of step 0, which finds nothing to sample. *)
Example classic_run_empty_universe dt s :
  Classic.run empty_universe 2 dt s
  = Done tt (record (PrintComplete 0)
               (record (CallQuantumEvent 0) (record (PrintRunning 2) s))).
Proof. reflexivity. Qed.

Example butterfly_run_empty_universe dt s :
  Butterfly.run empty_universe 2 dt s = Done tt (record (CallQuantumEvent 0) s).
Proof. reflexivity. Qed.

(** An event sampled against a galaxy without star systems: three draws, no
    line printed, in both files. *)
Example quantum_event_barren_galaxy k s :
  Classic._random_quantum_event barren_universe k s = Done tt (consume (consume (consume s)))
  /\ Butterfly._random_quantum_event barren_universe k s
     = Done tt (consume (consume (consume s))).
Proof. split; reflexivity. Qed.

(** The end-to-end scenario: one step of one day on the two-body system.  The
    planet is pulled towards the primary along [x] with the acceleration
    [G M / r2] of the gravity law, keeps its velocity along [y], and moves by
    its new velocity. *)
Example two_body_step :
  let ax := (- (Universe.G * 1.989e30 / (1.496e11 * 1.496e11)))%R in
  exists s',
    Classic.integrate 0 86400 two_body_state = Done tt s'
    /\ CelestialBody.vx (bodies s' 1%nat) = (ax * 86400)%R
    /\ CelestialBody.vy (bodies s' 1%nat) = 29780%R
    /\ CelestialBody.x (bodies s' 1%nat) = (1.496e11 + ax * 86400 * 86400)%R
    /\ CelestialBody.y (bodies s' 1%nat) = (29780 * 86400)%R.
Proof.
  cbv zeta. rewrite integrate_unfold.
  change (all_bodies two_body_state 0) with [0; 1]%nat.
  change (length [0; 1]%nat <? 2)%nat with false. cbv iota.
  change (net_forces two_body_state [0; 1]%nat)
    with [vadd (0, 0)%R (gravity two_body_state 0 1);
          vsub (0, 0)%R (gravity two_body_state 0 1)].
  assert (Hg : gravity two_body_state 0 1
               = (Universe.G * 1.989e30 * 5.972e24 / (1.496e11 * 1.496e11), 0)%R).
  { unfold gravity, separation2.
    cbv [two_body_state bodies sun earth CelestialBody.x CelestialBody.y
         CelestialBody.mass].
    replace ((1.496e11 - 0) * (1.496e11 - 0) + (0 - 0) * (0 - 0))%R
      with (1.496e11 * 1.496e11)%R by ring.
    destruct (Rlt_dec _ _) as [Hlt | _]; [lra |].
    rewrite sqrt_square by lra. f_equal; field; lra. }
  rewrite Hg. cbn [zip zip_with for_each fst snd vadd vsub].
  destruct (update_euler two_body_state 0
              (0 + Universe.G * 1.989e30 * 5.972e24 / (1.496e11 * 1.496e11)) (0 + 0) 86400)
    as (s1 & H1 & _ & Hother & _).
  rewrite (bind_done H1).
  destruct (update_euler s1 1
              (0 - Universe.G * 1.989e30 * 5.972e24 / (1.496e11 * 1.496e11)) (0 - 0) 86400)
    as (s2 & H2 & Hself & _).
  rewrite (bind_done H2).
  exists s2. split; [reflexivity |].
  rewrite Hself, (Hother 1%nat) by discriminate.
  change (bodies two_body_state 1) with earth.
  destruct (Rle_dec (CelestialBody.mass earth) 0) as [Hle | _].
  { cbv [earth CelestialBody.mass] in Hle. lra. }
  cbv [euler_step earth CelestialBody.mass CelestialBody.vx CelestialBody.vy
       CelestialBody.x CelestialBody.y].
  repeat split; field; lra.
Qed.

(** On the floats of the code an overflow is not undone by a zero factor.
    Two bodies of mass 1e200 one metre apart: [G * m1 * m2] overflows, the
    force is [(inf, nan)], and [update] with [dt = 0] leaves the body with
    NaN for position and velocity. *)
Example binary64_zero_time_step_overflow :
  Binary64.force_from Binary64.heavy_left Binary64.heavy_right
  = Some (infinity, nan)
  /\ Binary64.update Binary64.heavy_left infinity nan 0
     = Some (Binary64.mk "Heavy-Left" 1e200 nan nan nan nan).
Proof. split; vm_compute; reflexivity. Qed.

(** A body of mass zero and a body farther from it than the largest float:
    the separation overflows, and the force on the massless body is
    [(nan, 0.0)], not [(0.0, 0.0)]. *)
Example binary64_massless_far :
  Binary64.force_from Binary64.massless_far Binary64.star_far = Some (nan, 0%float).
Proof. vm_compute. reflexivity. Qed.

(** ** The claims *)

(** C1.  In a star system of at least two bodies, the accumulators that one
    call of [integrate] hands to [update] sum to exactly [(0, 0)]: they are
    what the pairs [(i, j)], [i < j < n], each taken once, leave behind when
    the force of [i] from [j] is added to accumulator [i] and subtracted from
    accumulator [j]. *)
Theorem C1_forces_sum_to_zero s self dt :
  let flat := all_bodies s self in
  let n := length flat in
  (2 <= n)%nat ->
  exists forces,
    Classic.collect_bodies self s = Done flat s
    /\ Classic.pairwise_forces flat s = Done forces s
    /\ Classic.integrate self dt s =
         for_each (zip flat forces)
           (fun _ bf => Classic.update (fst bf) (fst (snd bf)) (snd (snd bf)) dt) tt s
    /\ Butterfly.collect_bodies self s = Done flat s
    /\ Butterfly.pairwise_forces flat s = Done forces s
    /\ Butterfly.integrate self dt s =
         for_each (zip flat forces)
           (fun _ bf => Butterfly.update (fst bf) (fst (snd bf)) (snd (snd bf)) dt) tt s
    /\ length forces = n
    /\ sum_forces forces = (0, 0)%R
    /\ forces = fold_left (contribute (force_between s flat)) (pairs n)
                  (replicate n (0, 0)%R)
    /\ NoDup (pairs n)
    /\ (forall i j, (i, j) ∈ pairs n <-> (i < j < n)%nat)
    /\ (forall i j a b, flat !! i = Some a -> flat !! j = Some b ->
          Classic.force_from a b s = Done (force_between s flat i j) s).
Proof.
  cbv zeta. intros Hn.
  assert (Hint : Classic.integrate self dt s =
    for_each (zip (all_bodies s self) (net_forces s (all_bodies s self)))
      (fun _ bf => Classic.update (fst bf) (fst (snd bf)) (snd (snd bf)) dt) tt s).
  { rewrite integrate_unfold.
    destruct (Nat.ltb_spec (length (all_bodies s self)) 2); [lia | reflexivity]. }
  exists (net_forces s (all_bodies s self)).
  split; [apply collect_bodies_all_bodies |].
  split; [apply pairwise_forces_net |].
  split; [exact Hint |].
  split; [apply collect_bodies_all_bodies |].
  split; [apply pairwise_forces_net |].
  split; [exact Hint |].
  split; [apply net_forces_length |].
  split; [apply sum_forces_net |].
  split; [reflexivity |].
  split; [apply NoDup_pairs |].
  split; [intros i j; apply elem_of_pairs |].
  intros i j a b Ha Hb. unfold force_between. rewrite Ha, Hb.
  apply force_from_gravity.
Qed.

Lemma C1_witness :
  (2 <= length (all_bodies two_body_state 0))%nat
  /\ exists forces,
       Classic.pairwise_forces (all_bodies two_body_state 0) two_body_state
       = Done forces two_body_state
       /\ sum_forces forces = (0, 0)%R.
Proof.
  assert (H : (2 <= length (all_bodies two_body_state 0))%nat) by (cbn; lia).
  split; [exact H |].
  destruct (C1_forces_sum_to_zero two_body_state 0 86400%R H)
    as (forces & _ & Hf & _ & _ & _ & _ & _ & Hsum & _).
  exists forces. split; [exact Hf | exact Hsum].
Defined.

(** C2.  [run] with [steps = 0].  In butterfly_effect.py it is the no-op the
    specification describes.  In classic_universe.py line 43 reads
    [total_systems], which only the loop body assigns: the call prints its
    first line and raises [UnboundLocalError]; positions and velocities are
    untouched in both. *)
Theorem C2_run_zero_steps u dt s :
  Classic.run u 0 dt s = Raised UnboundLocalError (record (PrintRunning 0) s)
  /\ Butterfly.run u 0 dt s = Done tt s
  /\ same_kinematics s (final (Classic.run u 0 dt s))
  /\ same_kinematics s (final (Butterfly.run u 0 dt s)).
Proof.
  rewrite (classic_run_no_step u 0 dt s) by lia.
  rewrite (butterfly_run_no_step u 0 dt s) by lia.
  repeat split.
Qed.

(** C3, as amended.  Computed in exact arithmetic, for two bodies whose
    squared separation is at least the threshold 1e-10, [a.force_from(b)] is
    the force of the gravity law, of magnitude [G m1 m2 / r2] along the line
    from [a] to [b], and it is the componentwise negation of
    [b.force_from(a)], in both files; and [force_from] has no side effect:
    whatever the bodies, it ends in the state it started in.  (In binary64
    the two forces are negations of each other up to rounding only: see
    [C3_counterexample].) *)
Theorem C3_force_from_antisymmetric s a b :
  (1e-10 <= separation2 s a b)%R ->
  let dx := (CelestialBody.x (bodies s b) - CelestialBody.x (bodies s a))%R in
  let dy := (CelestialBody.y (bodies s b) - CelestialBody.y (bodies s a))%R in
  let F := (Universe.G * CelestialBody.mass (bodies s a) * CelestialBody.mass (bodies s b)
            / separation2 s a b)%R in
  (exists fx fy,
      Classic.force_from a b s = Done (fx, fy) s
      /\ Classic.force_from b a s = Done ((- fx)%R, (- fy)%R) s
      /\ Butterfly.force_from a b s = Done (fx, fy) s
      /\ Butterfly.force_from b a s = Done ((- fx)%R, (- fy)%R) s
      /\ fx = (F * dx / sqrt (separation2 s a b))%R
      /\ fy = (F * dy / sqrt (separation2 s a b))%R)
  /\ (forall s' a' b',
        final (Classic.force_from a' b' s') = s'
        /\ final (Butterfly.force_from a' b' s') = s').
Proof.
  intros Hsep dx dy F. split.
  - exists (fst (gravity s a b)), (snd (gravity s a b)).
    change (Butterfly.force_from a b s) with (Classic.force_from a b s).
    change (Butterfly.force_from b a s) with (Classic.force_from b a s).
    rewrite !force_from_gravity, (gravity_antisymmetric s a b).
    assert (Hg : gravity s a b
                 = (F * dx / sqrt (separation2 s a b), F * dy / sqrt (separation2 s a b))%R).
    { unfold gravity. cbv zeta.
      destruct (Rlt_dec _ _) as [Hlt | _]; [lra | reflexivity]. }
    rewrite Hg. repeat split; reflexivity.
  - intros s' a' b'.
    change (Butterfly.force_from a' b' s') with (Classic.force_from a' b' s').
    now rewrite force_from_gravity.
Qed.

Lemma C3_witness :
  (1e-10 <= separation2 two_body_state 0%nat 1%nat)%R
  /\ exists fx fy,
       Classic.force_from 0 1 two_body_state = Done (fx, fy) two_body_state
       /\ Classic.force_from 1 0 two_body_state = Done ((- fx)%R, (- fy)%R) two_body_state.
Proof.
  assert (H : (1e-10 <= separation2 two_body_state 0%nat 1%nat)%R).
  { cbv [separation2 two_body_state bodies earth sun CelestialBody.x CelestialBody.y]. lra. }
  split; [exact H |].
  destruct (C3_force_from_antisymmetric two_body_state 0 1 H)
    as [(fx & fy & H1 & H2 & _) _].
  exists fx, fy. split; [exact H1 | exact H2].
Defined.

(** C3 as it is stated fails on the floats of the code.  For the primary and
    the planet of the two-body scenario, 1.496e11 m apart, the force on the
    primary is [(3.5423960813684985e22, 0.0)] and the force on the planet
    [(-3.5423960813684977e22, 0.0)]: [G * m1 * m2] is evaluated as
    [(G * m1) * m2] in one call and as [(G * m2) * m1] in the other, and the
    two products round differently.  The x components are not negations of
    each other, by one unit in the last place. *)
Lemma C3_counterexample :
  ((Binary64.separation2 Binary64.sun Binary64.earth <? 1e-10)%float = false
   /\ (Binary64.separation2 Binary64.earth Binary64.sun <? 1e-10)%float = false)
  /\ Binary64.force_from Binary64.sun Binary64.earth
     = Some (3.5423960813684985e22%float, 0%float)
  /\ Binary64.force_from Binary64.earth Binary64.sun
     = Some ((-3.5423960813684977e22)%float, 0%float)
  /\ (3.5423960813684985e22 =? - (-3.5423960813684977e22))%float = false.
Proof. repeat split; vm_compute; reflexivity. Qed.

(** C4.  [update(fx, fy, dt)]: with mass [<= 0] the state is unchanged;
    otherwise the acceleration is [(fx/mass, fy/mass)], the velocity becomes
    [vx + ax*dt], [vy + ay*dt], and the position advances by the new velocity
    ([euler_step]).  Nothing else is written. *)
Theorem C4_update_velocity_then_position s self fx fy dt :
  let b := bodies s self in
  let m := CelestialBody.mass b in
  let vx' := (CelestialBody.vx b + fx / m * dt)%R in
  let vy' := (CelestialBody.vy b + fy / m * dt)%R in
  exists s',
    Classic.update self fx fy dt s = Done tt s'
    /\ Butterfly.update self fx fy dt s = Done tt s'
    /\ bodies s' self =
         (if Rle_dec m 0 then b
          else CelestialBody.mk (CelestialBody.name b) m
                 (CelestialBody.x b + vx' * dt)%R (CelestialBody.y b + vy' * dt)%R
                 vx' vy' (CelestialBody.moons b))
    /\ (forall o, o <> self -> bodies s' o = bodies s o)
    /\ systems s' = systems s /\ entropy s' = entropy s
    /\ drawn s' = drawn s /\ log s' = log s
    /\ ((m <= 0)%R -> s' = s).
Proof.
  cbv zeta.
  destruct (update_euler s self fx fy dt) as (s' & H & Hself & Hrest).
  exists s'. split; [exact H | split; [exact H | split; [exact Hself | exact Hrest]]].
Qed.

(** C5.  Over a hierarchy with exactly one reachable star system,
    [run(steps=6, dt=86400)] returns after calling that system's [integrate]
    six times, once per step, and attempting a quantum event three times, at
    the counters 0, 2 and 4, each after the integration of its step. *)
Theorem C5_six_steps_three_events u ss s :
  reachable_systems u = [ss] ->
  let expected :=
    [CallIntegrate ss; CallQuantumEvent 0;
     CallIntegrate ss;
     CallIntegrate ss; CallQuantumEvent 2;
     CallIntegrate ss;
     CallIntegrate ss; CallQuantumEvent 4;
     CallIntegrate ss] in
  (exists s' new,
      Classic.run u 6 86400 s = Done tt s'
      /\ log s' = log s ++ new
      /\ calls new = expected
      /\ integrations new = 6%nat
      /\ quantum_events new = [CallQuantumEvent 0; CallQuantumEvent 2; CallQuantumEvent 4])
  /\ (exists s' new,
        Butterfly.run u 6 86400 s = Done tt s'
        /\ log s' = log s ++ new
        /\ calls new = expected
        /\ integrations new = 6%nat
        /\ quantum_events new = [CallQuantumEvent 0; CallQuantumEvent 2; CallQuantumEvent 4]).
Proof.
  intros Hu expected.
  assert (Hcalls : flat_map (calls_of_step u) (range_int 6) = expected).
  { unfold calls_of_step. rewrite Hu. reflexivity. }
  split.
  - destruct (classic_run u 6 86400 s) as (s' & new & Hrun & (_ & _ & Hlog) & C & _); [lia |].
    rewrite Hcalls in C.
    exists s', new. split; [exact Hrun | split; [exact Hlog | split; [exact C |]]].
    unfold integrations. rewrite <- integrations_calls, <- quantum_events_calls, C.
    split; reflexivity.
  - destruct (butterfly_run u 6 86400 s) as (s' & new & Hrun & (_ & _ & Hlog) & C & _).
    rewrite Hcalls in C.
    exists s', new. split; [exact Hrun | split; [exact Hlog | split; [exact C |]]].
    unfold integrations. rewrite <- integrations_calls, <- quantum_events_calls, C.
    split; reflexivity.
Qed.

Lemma C5_witness :
  reachable_systems demo_universe = [0%nat]
  /\ exists s' new,
       Classic.run demo_universe 6 86400 two_body_state = Done tt s'
       /\ log s' = new
       /\ integrations new = 6%nat
       /\ quantum_events new = [CallQuantumEvent 0; CallQuantumEvent 2; CallQuantumEvent 4].
Proof.
  split; [reflexivity |].
  destruct (C5_six_steps_three_events demo_universe 0%nat two_body_state eq_refl)
    as [(s' & new & Hrun & Hlog & _ & Hi & Hq) _].
  exists s', new. split; [exact Hrun | split; [exact Hlog | split; [exact Hi | exact Hq]]].
Defined.

(** C6.  When the random walk of a quantum event meets an empty collection,
    at whatever level, only that event is skipped.  The event returns
    normally in both files, without printing a measurement and without
    touching a body or a star system.  The step and the run continue: a run
    of [steps] steps is what it does until it calls the event of an even step
    [k], then the event, then the steps [k + 1], ..., [steps - 1] (and, in
    classic_universe.py, the last line); when the walk of that event meets an
    empty collection, the run goes through these later steps from the state
    the event was called in, makes every call of theirs, and returns.  On a
    universe without superclusters a run makes no integration and no
    measurement; it returns in butterfly_effect.py whatever [steps], and in
    classic_universe.py when [steps >= 1].  Asked for no step,
    classic_universe.py fails with [UnboundLocalError] on such a universe as
    on any other: there the code breaks the claim. *)
Theorem C6_empty_level_skips_event u :
  (forall k s,
      meets_empty u s ->
      exists s',
        Classic._random_quantum_event u k s = Done tt s'
        /\ Butterfly._random_quantum_event u k s = Done tt s'
        /\ log s' = log s /\ bodies s' = bodies s /\ systems s' = systems s)
  /\ (forall steps dt s0 k,
        (0 <= k < steps)%Z -> (k mod 2 = 0)%Z ->
        (Butterfly.run u steps dt s0
         = (butterfly_until_event u dt k ;;
            Butterfly._random_quantum_event u k ;;
            butterfly_steps u dt (later_steps steps k)) s0
         /\ exists s_k,
              butterfly_until_event u dt k s0 = Done tt s_k
              /\ (meets_empty u s_k ->
                  exists s_e s' new,
                    Butterfly._random_quantum_event u k s_k = Done tt s_e
                    /\ log s_e = log s_k
                    /\ butterfly_steps u dt (later_steps steps k) s_e = Done tt s'
                    /\ Butterfly.run u steps dt s0 = Done tt s'
                    /\ log s' = log s_k ++ new
                    /\ calls new = flat_map (calls_of_step u) (later_steps steps k)))
        /\ (Classic.run u steps dt s0
            = (total_systems <- classic_until_event u steps dt k ;;
               Classic._random_quantum_event u k ;;
               classic_after_event u steps dt k total_systems) s0
            /\ exists t s_k,
                 classic_until_event u steps dt k s0 = Done t s_k
                 /\ (meets_empty u s_k ->
                     exists s_e s' new total_systems,
                       Classic._random_quantum_event u k s_k = Done tt s_e
                       /\ log s_e = log s_k
                       /\ classic_after_event u steps dt k t s_e = Done tt s'
                       /\ Classic.run u steps dt s0 = Done tt s'
                       /\ log s' = log s_k ++ new ++ [PrintComplete total_systems]
                       /\ calls new = flat_map (calls_of_step u) (later_steps steps k))))
  /\ (Universe.superclusters u = [] ->
      forall steps dt s0,
        (exists s' new,
            Butterfly.run u steps dt s0 = Done tt s' /\ log s' = log s0 ++ new
            /\ integrations new = 0%nat /\ measurements new = 0%nat)
        /\ ((0 < steps)%Z ->
            exists s' new,
              Classic.run u steps dt s0 = Done tt s' /\ log s' = log s0 ++ new
              /\ integrations new = 0%nat /\ measurements new = 0%nat)
        /\ ((steps <= 0)%Z ->
            Classic.run u steps dt s0
            = Raised UnboundLocalError (record (PrintRunning steps) s0))).
Proof.
  assert (Hevent : forall k s, meets_empty u s ->
    exists s', Classic._random_quantum_event u k s = Done tt s'
               /\ Butterfly._random_quantum_event u k s = Done tt s'
               /\ log s' = log s /\ bodies s' = bodies s /\ systems s' = systems s).
  { intros k s Hempty.
    destruct (classic_quantum_event u k s) as (s' & Hrun & Hb & Hs & _ & Hlog).
    apply meets_empty_sampled_system in Hempty. rewrite Hempty in Hlog.
    exists s'. rewrite butterfly_quantum_event. auto. }
  split; [exact Hevent | split].
  - intros steps dt s0 k Hk Heven. split.
    + split; [now apply butterfly_run_around_event |].
      destruct (butterfly_loop u dt (range_int k) s0) as (s1 & new1 & H1 & _).
      destruct (butterfly_integrate_all u dt s1) as (s2 & H2 & _).
      assert (Huntil : butterfly_until_event u dt k s0
                       = Done tt (record (CallQuantumEvent k) s2)).
      { unfold butterfly_until_event, butterfly_steps.
        now rewrite (bind_done H1), (bind_done H2). }
      eexists. split; [exact Huntil |]. intros Hempty.
      destruct (Hevent k _ Hempty) as (s_e & _ & He & Hlog & _).
      destruct (butterfly_loop u dt (later_steps steps k) s_e)
        as (s' & new & H3 & (_ & _ & Hlog') & Hcalls & _).
      exists s_e, s', new.
      split; [exact He | split; [exact Hlog | split; [exact H3 | split; [| split]]]].
      * rewrite (butterfly_run_around_event u steps dt k s0 Hk Heven).
        rewrite (bind_done Huntil), (bind_done He). exact H3.
      * now rewrite Hlog', Hlog.
      * exact Hcalls.
    + split; [now apply classic_run_around_event |].
      destruct (classic_loop u dt (range_int k) None (record (PrintRunning steps) s0))
        as (t1 & s1 & new1 & H1 & _).
      destruct (classic_integrate_all u dt s1) as (t & s2 & H2 & _).
      assert (Huntil : classic_until_event u steps dt k s0
                       = Done t (record (CallQuantumEvent k) s2)).
      { unfold classic_until_event, classic_steps.
        now rewrite bind_emit, (bind_done H1), (bind_done H2). }
      eexists _, _. split; [exact Huntil |]. intros Hempty.
      destruct (Hevent k _ Hempty) as (s_e & He & _ & Hlog & _).
      destruct (classic_loop u dt (later_steps steps k) (Some t) s_e)
        as (t' & s3 & new & H3 & (_ & _ & Hlog') & Hcalls & _ & Hnil & Hcons).
      assert (Ht : exists n, t' = Some n).
      { destruct t' as [n |]; [now exists n |].
        destruct (later_steps steps k) as [| k' ks].
        - now specialize (Hnil eq_refl).
        - now destruct (Hcons ltac:(discriminate)). }
      destruct Ht as (n & ->).
      assert (Hafter : classic_after_event u steps dt k t s_e
                       = Done tt (record (PrintComplete n) s3)).
      { unfold classic_after_event, classic_steps. now rewrite (bind_done H3). }
      exists s_e, (record (PrintComplete n) s3), new, n.
      split; [exact He | split; [exact Hlog | split; [exact Hafter | split; [| split]]]].
      * rewrite (classic_run_around_event u steps dt k s0 Hk Heven).
        rewrite (bind_done Huntil), (bind_done He). exact Hafter.
      * cbn [log record]. now rewrite Hlog', Hlog, app_assoc.
      * exact Hcalls.
  - intros Hu steps dt s0.
    assert (Hcalls : forall ks,
      List.filter is_integration (flat_map (calls_of_step u) ks) = []).
    { unfold calls_of_step. rewrite (no_supercluster_no_system u Hu).
      induction ks as [| k' ks IH]; [reflexivity |].
      cbn [flat_map]. rewrite List.filter_app, IH, app_nil_r.
      now destruct (k' mod 2 =? 0)%Z. }
    split; [| split].
    + destruct (butterfly_run u steps dt s0) as (s' & new & Hrun & (_ & _ & Hlog) & C & Mn).
      exists s', new. split; [exact Hrun | split; [exact Hlog | split]].
      * unfold integrations. now rewrite <- integrations_calls, C, Hcalls.
      * unfold measurements. rewrite Mn; [reflexivity |].
        intros s1. now apply no_supercluster_no_sample.
    + intros Hsteps.
      destruct (classic_run u steps dt s0 Hsteps) as (s' & new & Hrun & (_ & _ & Hlog) & C & Mn).
      exists s', new. split; [exact Hrun | split; [exact Hlog | split]].
      * unfold integrations. now rewrite <- integrations_calls, C, Hcalls.
      * unfold measurements. rewrite Mn; [reflexivity |].
        intros s1. now apply no_supercluster_no_sample.
    + apply classic_run_no_step.
Qed.

(** The run of six steps of classic_universe.py over the universe whose only
    galaxy has no star system: the event of step 2 is skipped, and the run
    goes on through the steps 3, 4 and 5 to its last line. *)
Lemma C6_witness :
  ((0 <= 2 < 6)%Z /\ (2 mod 2 = 0)%Z)
  /\ exists t s_k s' new total_systems,
       classic_until_event barren_universe 6 86400 2 two_body_state = Done t s_k
       /\ meets_empty barren_universe s_k
       /\ Classic.run barren_universe 6 86400 two_body_state = Done tt s'
       /\ log s' = log s_k ++ new ++ [PrintComplete total_systems]
       /\ calls new = flat_map (calls_of_step barren_universe) (later_steps 6 2).
Proof.
  assert (Hk : (0 <= 2 < 6)%Z) by lia.
  assert (Heven : (2 mod 2 = 0)%Z) by reflexivity.
  split; [split; [exact Hk | exact Heven] |].
  destruct (proj1 (proj2 (C6_empty_level_skips_event barren_universe))
              6%Z 86400%R two_body_state 2%Z Hk Heven)
    as (_ & _ & t & s_k & Huntil & Hgo).
  destruct (Hgo (barren_meets_empty s_k)) as (s_e & s' & new & n & _ & _ & _ & Hrun & Hlog & Hcalls).
  exists t, s_k, s', new, n.
  split; [exact Huntil | split; [apply barren_meets_empty | split; [exact Hrun | split; [exact Hlog | exact Hcalls]]]].
Defined.

(** C7.  Below the threshold ([dx*dx + dy*dy < 1e-10]) [force_from] returns
    exactly [(0.0, 0.0)], whatever the masses. *)
Theorem C7_force_from_clamped s a b :
  (separation2 s a b < 1e-10)%R ->
  Classic.force_from a b s = Done (0%R, 0%R) s
  /\ Butterfly.force_from a b s = Done (0%R, 0%R) s.
Proof.
  intros H.
  change (Butterfly.force_from a b s) with (Classic.force_from a b s).
  now rewrite force_from_gravity, (gravity_below_threshold _ _ _ H).
Qed.

Lemma C7_witness :
  (separation2 two_body_state 0%nat 2%nat < 1e-10)%R
  /\ Classic.force_from 0 2 two_body_state = Done (0%R, 0%R) two_body_state.
Proof.
  assert (H : (separation2 two_body_state 0%nat 2%nat < 1e-10)%R).
  { cbv [separation2 two_body_state bodies earth sun CelestialBody.x CelestialBody.y]. lra. }
  split; [exact H |].
  exact (proj1 (C7_force_from_clamped two_body_state 0 2 H)).
Defined.

(** C8.  [integrate], and hence [run], writes positions and velocities only:
    in whatever way they end, every body has the name, the mass and the moons
    it had, and every star system the primary, planets, asteroids and stellar
    remnants it had, so that the flattened body list is the same; masses that
    were non-negative are non-negative afterwards. *)
Theorem C8_only_kinematics_written s :
  (forall self dt,
      same_static s (final (Classic.integrate self dt s))
      /\ same_static s (final (Butterfly.integrate self dt s))
      /\ all_bodies (final (Classic.integrate self dt s)) self = all_bodies s self)
  /\ (forall self fx fy dt, same_static s (final (Classic.update self fx fy dt s)))
  /\ (forall u steps dt,
        same_static s (final (Classic.run u steps dt s))
        /\ same_static s (final (Butterfly.run u steps dt s)))
  /\ ((forall o, (0 <= CelestialBody.mass (bodies s o))%R) ->
      forall self u steps dt o,
        (0 <= CelestialBody.mass (bodies (final (Classic.integrate self dt s)) o))%R
        /\ (0 <= CelestialBody.mass (bodies (final (Butterfly.integrate self dt s)) o))%R
        /\ (0 <= CelestialBody.mass (bodies (final (Classic.run u steps dt s)) o))%R
        /\ (0 <= CelestialBody.mass (bodies (final (Butterfly.run u steps dt s)) o))%R).
Proof.
  assert (Hint : forall self dt, same_static s (final (Classic.integrate self dt s))).
  { intros self dt.
    destruct (integrate_kinematics_only self dt s) as (s' & -> & K). apply K. }
  split; [| split; [| split]].
  - intros self dt. split; [apply Hint | split; [apply Hint |]].
    apply all_bodies_static, Hint.
  - intros self fx fy dt.
    destruct (update_kinematics_only s self fx fy dt) as (s' & -> & K). apply K.
  - intros u steps dt. split; [apply classic_run_static | apply butterfly_run_static].
  - intros Hmass self u steps dt o.
    destruct (Hint self dt) as [Hi _].
    destruct (classic_run_static u steps dt s) as [Hc _].
    destruct (butterfly_run_static u steps dt s) as [Hb _].
    change (Butterfly.integrate self dt s) with (Classic.integrate self dt s).
    destruct (Hi o) as (_ & -> & _), (Hc o) as (_ & -> & _), (Hb o) as (_ & -> & _).
    auto.
Qed.

Lemma C8_witness :
  (forall o, (0 <= CelestialBody.mass (bodies two_body_state o))%R)
  /\ forall o,
       (0 <= CelestialBody.mass
               (bodies (final (Classic.run demo_universe 6 86400%R two_body_state)) o))%R.
Proof.
  assert (H : forall o, (0 <= CelestialBody.mass (bodies two_body_state o))%R).
  { intros [| [| o]]; cbv [two_body_state bodies sun earth CelestialBody.mass]; lra. }
  split; [exact H |].
  intros o.
  exact (proj1 (proj2 (proj2 (proj2 (proj2 (proj2 (C8_only_kinematics_written two_body_state)))
                         H 0%nat demo_universe 6%Z 86400%R o)))).
Defined.

(** C9.  A star system whose flattened body list has fewer than two
    elements is a primary alone; [integrate] returns at once, in the state it
    was called in, and there is no pair to compute a force for. *)
Theorem C9_integrate_lone_body s self dt :
  (length (all_bodies s self) < 2)%nat ->
  Classic.integrate self dt s = Done tt s
  /\ Butterfly.integrate self dt s = Done tt s
  /\ all_bodies s self = [StarSystem.primary (systems s self)]
  /\ pairs (length (all_bodies s self)) = [].
Proof.
  intros H.
  assert (Hint : Classic.integrate self dt s = Done tt s).
  { rewrite integrate_unfold.
    destruct (Nat.ltb_spec (length (all_bodies s self)) 2); [reflexivity | lia]. }
  destruct (all_bodies_length s self H) as (_ & _ & _ & Hall).
  split; [exact Hint | split; [exact Hint | split; [exact Hall |]]].
  rewrite Hall. reflexivity.
Qed.

Lemma C9_witness :
  (length (all_bodies two_body_state 1) < 2)%nat
  /\ Classic.integrate 1 86400%R two_body_state = Done tt two_body_state.
Proof.
  assert (H : (length (all_bodies two_body_state 1) < 2)%nat) by (cbn; lia).
  split; [exact H |].
  exact (proj1 (C9_integrate_lone_body two_body_state 1 86400%R H)).
Defined.

(** C10.  The two files implement the same [force_from], [update] and
    [integrate]: on every input, the same result and the same state. *)
Theorem C10_files_agree :
  (forall self other s, Classic.force_from self other s = Butterfly.force_from self other s)
  /\ (forall self fx fy dt s, Classic.update self fx fy dt s = Butterfly.update self fx fy dt s)
  /\ (forall self dt s, Classic.integrate self dt s = Butterfly.integrate self dt s).
Proof. repeat split. Qed.

(** ** Further properties: forces *)

Section NetForce.
Local Open Scope R_scope.

Lemma vadd_0_r v : vadd v (0, 0) = v.
Proof. destruct v. unfold vadd. cbn [fst snd]. f_equal; ring. Qed.

Lemma vadd_0_l v : vadd (0, 0) v = v.
Proof. destruct v. unfold vadd. cbn [fst snd]. f_equal; ring. Qed.

Lemma vadd_assoc u v w : vadd u (vadd v w) = vadd (vadd u v) w.
Proof. unfold vadd. cbn [fst snd]. f_equal; ring. Qed.

Lemma vadd_comm u v : vadd u v = vadd v u.
Proof. unfold vadd. f_equal; ring. Qed.

Lemma vsub_vadd_vneg u v : vsub u v = vadd u (vneg v).
Proof. unfold vsub, vadd, vneg. cbn [fst snd]. f_equal; ring. Qed.

Lemma sum_forces_cons v l : sum_forces (v :: l) = vadd v (sum_forces l).
Proof. reflexivity. Qed.

Lemma sum_forces_app l l' : sum_forces (l ++ l') = vadd (sum_forces l) (sum_forces l').
Proof.
  induction l as [| v l IH]; cbn [app].
  - change (sum_forces []) with (0, 0). now rewrite vadd_0_l.
  - now rewrite !sum_forces_cons, IH, vadd_assoc.
Qed.

Lemma sum_forces_zero {A} (g : A -> R * R) (l : list A) :
  (forall a, a ∈ l -> g a = (0, 0)) -> sum_forces (map g l) = (0, 0).
Proof.
  induction l as [| a l IH]; intros H; [reflexivity |].
  cbn [map]. rewrite sum_forces_cons, (H a) by left.
  rewrite vadd_0_l. apply IH. intros b Hb. apply H. now right.
Qed.

Lemma sum_forces_ext {A} (g h : A -> R * R) (l : list A) :
  (forall a, a ∈ l -> g a = h a) -> sum_forces (map g l) = sum_forces (map h l).
Proof.
  induction l as [| a l IH]; intros H; [reflexivity |].
  cbn [map]. rewrite !sum_forces_cons, (H a) by left.
  f_equal. apply IH. intros b Hb. apply H. now right.
Qed.

(** One term [c] at position [k], zero elsewhere. *)
Lemma sum_forces_single (c : R * R) k lo len :
  sum_forces (map (fun j => if (j =? k)%nat then c else (0, 0)) (seq lo len))
  = if decide (lo <= k < lo + len)%nat then c else (0, 0).
Proof.
  revert lo. induction len as [| len IH]; intros lo.
  - cbn. case_decide; [lia | reflexivity].
  - cbn [seq map]. rewrite sum_forces_cons, IH.
    destruct (Nat.eqb_spec lo k) as [-> | Hne].
    + repeat case_decide; try lia. apply vadd_0_r.
    + rewrite vadd_0_l. repeat case_decide; try lia; reflexivity.
Qed.

(** After the contributions of the pairs [ps], accumulator [k] holds what it
    held plus the shares of these pairs. *)
Lemma fold_contribute_lookup f (ps : list (nat * nat)) :
  forall (forces : list (R * R)) k v,
    (forall i j, (i, j) ∈ ps -> i <> j) ->
    forces !! k = Some v ->
    fold_left (contribute f) ps forces !! k
    = Some (vadd v (sum_forces (map (share f k) ps))).
Proof.
  induction ps as [| [i j] ps IH]; intros forces k v Hps Hk; cbn [fold_left map].
  - change (sum_forces []) with (0, 0). now rewrite vadd_0_r.
  - assert (Hij : i <> j) by (apply Hps; left).
    rewrite sum_forces_cons, vadd_assoc.
    apply IH; [intros i' j' Hin; apply Hps; now right |].
    unfold contribute, share. cbn [fst snd].
    destruct (Nat.eqb_spec i k) as [-> | Hik].
    + rewrite list_lookup_alter_ne by auto.
      now rewrite list_lookup_alter_eq, Hk.
    + destruct (Nat.eqb_spec j k) as [-> | Hjk].
      * rewrite list_lookup_alter_eq, list_lookup_alter_ne, Hk by auto.
        cbn. now rewrite vsub_vadd_vneg.
      * rewrite !list_lookup_alter_ne, Hk by auto. now rewrite vadd_0_r.
Qed.

Lemma force_between_antisymmetric s (bodies : list loc) i j :
  vneg (force_between s bodies i j) = force_between s bodies j i.
Proof.
  unfold force_between.
  destruct (bodies !! i) as [a |], (bodies !! j) as [b |];
    try (unfold vneg; cbn [fst snd]; f_equal; ring).
  now rewrite (gravity_antisymmetric s a b).
Qed.

(** The shares of the pairs [(i, j)], [i < j < n], in accumulator [k]: from
    the pairs [(k, j)] the force of [k] from [j]; from the pairs [(i, k)] the
    negated force of [i] from [k], which is the force of [k] from [i]. *)
Lemma sum_share_pairs s (bodies : list loc) n k :
  (k < n)%nat ->
  sum_forces (map (share (force_between s bodies) k) (pairs n))
  = sum_forces (map (force_between s bodies k)
                  (List.filter (fun j => negb (j =? k)%nat) (range 0 n))).
Proof.
  intros Hk. set (f := force_between s bodies).
  (* the left side, row by row *)
  assert (Hrow : forall i, (i < n)%nat ->
    sum_forces (map (share f k) (map (pair i) (range (i + 1) n)))
    = if (i =? k)%nat then sum_forces (map (f k) (range (k + 1) n))
      else if (i <? k)%nat then f k i else (0, 0)).
  { intros i Hi. rewrite map_map. unfold share. cbn [fst snd].
    destruct (Nat.eqb_spec i k) as [-> | Hik]; [reflexivity |].
    rewrite (sum_forces_ext _ (fun j => if (j =? k)%nat then vneg (f i k) else (0, 0))).
    2: { intros j _. destruct (Nat.eqb_spec j k) as [-> | ?]; reflexivity. }
    unfold range. rewrite sum_forces_single.
    destruct (Nat.ltb_spec i k); case_decide; try lia; [| reflexivity].
    apply force_between_antisymmetric. }
  assert (Hrows : forall l : list nat, (forall i, i ∈ l -> (i < n)%nat) ->
    sum_forces (map (share f k) (flat_map (fun i => map (pair i) (range (i + 1) n)) l))
    = sum_forces (map (fun i => if (i =? k)%nat
                                then sum_forces (map (f k) (range (k + 1) n))
                                else if (i <? k)%nat then f k i else (0, 0)) l)).
  { induction l as [| i l IH]; intros Hl; [reflexivity |].
    cbn [flat_map map]. rewrite map_app, sum_forces_app, sum_forces_cons.
    rewrite Hrow by (apply Hl; left). f_equal.
    apply IH. intros i' Hi'. apply Hl. now right. }
  unfold pairs. rewrite Hrows by (intros i Hi; apply elem_of_range in Hi; lia).
  (* both sides, split at k *)
  unfold range. rewrite !Nat.sub_0_r.
  assert (Hsplit : seq 0 n = seq 0 k ++ [k] ++ seq (S k) (n - (k + 1))).
  { replace n with (k + (1 + (n - (k + 1))))%nat at 1 by lia.
    rewrite !seq_app. cbn [seq Nat.add app].
    now replace (k + 1)%nat with (S k) by lia. }
  rewrite Hsplit.
  rewrite !List.filter_app, !map_app, !sum_forces_app.
  cbn [List.filter map]. rewrite Nat.eqb_refl. cbn [negb app].
  rewrite sum_forces_cons.
  assert (Hlow : forall g, List.filter (fun j => negb (j =? k)%nat) (seq 0 k) = seq 0 k
                           /\ sum_forces (map (fun i => if (i =? k)%nat then g
                                else if (i <? k)%nat then f k i else (0, 0)) (seq 0 k))
                              = sum_forces (map (f k) (seq 0 k))).
  { intros g. split.
    - apply forallb_filter_id, forallb_forall. intros j Hj.
      apply in_seq in Hj. destruct (Nat.eqb_spec j k); [lia | reflexivity].
    - apply sum_forces_ext. intros i Hi. apply elem_of_seq in Hi.
      destruct (Nat.eqb_spec i k); [lia |].
      destruct (Nat.ltb_spec i k); [reflexivity | lia]. }
  assert (Hhigh : forall g, List.filter (fun j => negb (j =? k)%nat) (seq (S k) (n - (k + 1)))
                            = seq (S k) (n - (k + 1))
                            /\ sum_forces (map (fun i => if (i =? k)%nat then g
                                 else if (i <? k)%nat then f k i else (0, 0))
                                 (seq (S k) (n - (k + 1)))) = (0, 0)).
  { intros g. split.
    - apply forallb_filter_id, forallb_forall. intros j Hj.
      apply in_seq in Hj. destruct (Nat.eqb_spec j k); [lia | reflexivity].
    - apply sum_forces_zero. intros i Hi. apply elem_of_seq in Hi.
      destruct (Nat.eqb_spec i k); [lia |].
      destruct (Nat.ltb_spec i k); [lia | reflexivity]. }
  destruct (Hlow (sum_forces (map (f k) (seq (k + 1) (n - (k + 1)))))) as [-> ->].
  destruct (Hhigh (sum_forces (map (f k) (seq (k + 1) (n - (k + 1)))))) as [-> ->].
  cbn [map]. change (sum_forces []) with (0, 0).
  rewrite ?vadd_0_l, ?vadd_0_r. now replace (k + 1)%nat with (S k) by lia.
Qed.

Lemma net_forces_total_pull s (bodies : list loc) k :
  (k < length bodies)%nat ->
  net_forces s bodies !! k = Some (total_pull s bodies k).
Proof.
  intros Hk. unfold net_forces, total_pull.
  rewrite (fold_contribute_lookup _ _ _ k (0, 0)).
  - now rewrite vadd_0_l, sum_share_pairs.
  - intros i j Hin. apply elem_of_pairs in Hin. lia.
  - now apply lookup_replicate_2.
Qed.

End NetForce.

(** X1.  In exact arithmetic, the accumulator [integrate] ends up with for a
    body is the sum, over
    all the other bodies of the flattened list, of the force [force_from]
    gives it from each: adding the force to [i] and subtracting it from [j]
    loses nothing against computing both directions. *)
Theorem X1_accumulator_is_total_pull s (flat : list loc) :
  exists forces,
    Classic.pairwise_forces flat s = Done forces s
    /\ Butterfly.pairwise_forces flat s = Done forces s
    /\ length forces = length flat
    /\ (forall k, (k < length flat)%nat -> forces !! k = Some (total_pull s flat k))
    /\ (forall k j a b, flat !! k = Some a -> flat !! j = Some b ->
          Classic.force_from a b s = Done (force_between s flat k j) s).
Proof.
  exists (net_forces s flat).
  split; [apply pairwise_forces_net |].
  split; [apply pairwise_forces_net |].
  split; [apply net_forces_length |].
  split; [intros k; apply net_forces_total_pull |].
  intros k j a b Ha Hb. unfold force_between. rewrite Ha, Hb.
  apply force_from_gravity.
Qed.

(** ** Further properties: one integration step *)

Section UpdateLoop.
Local Open Scope R_scope.

(** The loop of [update] calls at the end of [integrate], body by body: a
    body outside the list, or of mass [<= 0], is left as it was; a body that
    occurs once takes one Euler step with the force paired with it. *)
Lemma update_loop_bodies (l : list (loc * (R * R))) dt :
  forall s, exists s',
    for_each l (fun _ bf => Classic.update (fst bf) (fst (snd bf)) (snd (snd bf)) dt) tt s
    = Done tt s'
    /\ kinematics_only s s'
    /\ (forall o, o ∉ map fst l -> bodies s' o = bodies s o)
    /\ (forall o, CelestialBody.mass (bodies s o) <= 0 -> bodies s' o = bodies s o)
    /\ (NoDup (map fst l) ->
        forall o f, (o, f) ∈ l ->
          bodies s' o =
            if Rle_dec (CelestialBody.mass (bodies s o)) 0 then bodies s o
            else euler_step (bodies s o) (fst f) (snd f) dt).
Proof.
  induction l as [| [o1 f1] l IH]; intros s; cbn [for_each map fst snd].
  - exists s. split; [reflexivity | split; [apply kinematics_only_refl |]].
    split; [reflexivity | split; [reflexivity |]].
    intros _ o f Hin. inversion Hin.
  - destruct (update_euler s o1 (fst f1) (snd f1) dt)
      as (s1 & H1 & Hself & Hother & _ & _ & _ & _ & Hfixed).
    destruct (update_kinematics_only s o1 (fst f1) (snd f1) dt) as (s1' & H1' & K1).
    rewrite H1 in H1'. injection H1' as <-.
    rewrite (bind_done H1).
    destruct (IH s1) as (s2 & H2 & K2 & Hout & Hheavy & Hone).
    exists s2. split; [exact H2 |].
    split; [eapply kinematics_only_trans; eauto |].
    assert (Hmass : forall o, CelestialBody.mass (bodies s1 o) = CelestialBody.mass (bodies s o)).
    { intros o. apply K1. }
    split; [| split].
    + intros o Ho. apply not_elem_of_cons in Ho as [Hne Ho].
      now rewrite (Hout o Ho), (Hother o Hne).
    + intros o Ho. rewrite Hheavy by now rewrite Hmass.
      destruct (Nat.eq_dec o o1) as [-> | Hne]; [| now apply Hother].
      now rewrite (Hfixed Ho).
    + intros Hnd o f Hin. apply NoDup_cons in Hnd as [Hfresh Hnd].
      apply elem_of_cons in Hin as [[= -> ->] | Hin].
      * now rewrite (Hout o1 Hfresh), Hself.
      * assert (Hne : o <> o1).
        { intros ->. apply Hfresh. apply list_elem_of_fmap. now exists (o1, f). }
        now rewrite (Hone Hnd o f Hin), (Hother o Hne).
Qed.

Lemma euler_step_dt_0 b fx fy : euler_step b fx fy 0 = b.
Proof.
  destruct b as [nm m px py v w ms]. unfold euler_step. cbn.
  f_equal; ring.
Qed.

(** With [dt = 0] the loop leaves every body as it was. *)
Lemma update_loop_dt_0 (l : list (loc * (R * R))) :
  forall s, exists s',
    for_each l (fun _ bf => Classic.update (fst bf) (fst (snd bf)) (snd (snd bf)) 0) tt s
    = Done tt s'
    /\ forall o, bodies s' o = bodies s o.
Proof.
  induction l as [| [o1 f1] l IH]; intros s; cbn [for_each fst snd].
  - exists s. split; reflexivity.
  - destruct (update_euler s o1 (fst f1) (snd f1) 0) as (s1 & H1 & Hself & Hother & _).
    rewrite (bind_done H1).
    destruct (IH s1) as (s2 & H2 & Hsame).
    exists s2. split; [exact H2 |].
    intros o. rewrite Hsame.
    destruct (Nat.eq_dec o o1) as [-> | Hne]; [| now apply Hother].
    rewrite Hself. destruct (Rle_dec _ _); [reflexivity | apply euler_step_dt_0].
Qed.

Lemma integrate_dt_0 self s :
  exists s', Classic.integrate self 0 s = Done tt s' /\ forall o, bodies s' o = bodies s o.
Proof.
  rewrite integrate_unfold. destruct (_ <? 2)%nat.
  - exists s. split; reflexivity.
  - apply update_loop_dt_0.
Qed.

(** Momentum after one Euler step per pair, against momentum before. *)
Lemma momentum_after_steps s s' dt (l : list (loc * (R * R))) :
  (forall o f, (o, f) ∈ l ->
     0 < CelestialBody.mass (bodies s o)
     /\ bodies s' o = euler_step (bodies s o) (fst f) (snd f) dt) ->
  momentum s' (map fst l)
  = vadd (momentum s (map fst l))
      (dt * fst (sum_forces (map snd l)), dt * snd (sum_forces (map snd l))).
Proof.
  unfold momentum. induction l as [| [o f] l IH]; intros H; cbn [map fst snd].
  - change (sum_forces []) with (0, 0). unfold vadd. cbn [fst snd]. f_equal; ring.
  - rewrite !sum_forces_cons, IH by (intros o' f' Hin; apply H; now right).
    destruct (H o f) as [Hm ->]; [left |].
    unfold vadd, euler_step. cbn [fst snd CelestialBody.mass CelestialBody.vx CelestialBody.vy].
    f_equal; field; lra.
Qed.

End UpdateLoop.

(** X2.  In a star system whose flattened list names no body twice and whose
    bodies all have positive mass, one call of [integrate] conserves, in exact
    arithmetic, linear
    momentum: the sum of [mass * velocity] over the bodies of the system is
    the same after the call as before, whatever [dt]. *)
Theorem X2_integrate_conserves_momentum s self dt :
  NoDup (all_bodies s self) ->
  (forall o, o ∈ all_bodies s self -> (0 < CelestialBody.mass (bodies s o))%R) ->
  exists s',
    Classic.integrate self dt s = Done tt s'
    /\ Butterfly.integrate self dt s = Done tt s'
    /\ momentum s' (all_bodies s self) = momentum s (all_bodies s self).
Proof.
  intros Hnd Hmass.
  change (Butterfly.integrate self dt s) with (Classic.integrate self dt s).
  rewrite integrate_unfold. destruct (_ <? 2)%nat.
  { exists s. repeat split. }
  set (flat := all_bodies s self) in *. set (forces := net_forces s flat).
  assert (Hlen : length forces = length flat) by apply net_forces_length.
  assert (Hfst : map fst (zip flat forces) = flat) by (apply fst_zip; lia).
  assert (Hsnd : map snd (zip flat forces) = forces) by (apply snd_zip; lia).
  destruct (update_loop_bodies (zip flat forces) dt s) as (s' & Hrun & _ & _ & _ & Hone).
  exists s'. split; [exact Hrun | split; [exact Hrun |]].
  rewrite <- Hfst at 1 2.
  rewrite (momentum_after_steps s s' dt).
  - rewrite Hsnd. unfold forces. rewrite sum_forces_net. cbn [fst snd].
    destruct (momentum s _) as [px py]. unfold vadd. cbn [fst snd]. f_equal; ring.
  - intros o f Hin.
    assert (Ho : o ∈ flat).
    { rewrite <- Hfst. apply list_elem_of_fmap. now exists (o, f). }
    split; [now apply Hmass |].
    rewrite (Hone ltac:(now rewrite Hfst) o f Hin).
    destruct (Rle_dec _ _) as [Hle | _]; [| reflexivity].
    specialize (Hmass o Ho). lra.
Qed.

Lemma X2_witness :
  NoDup (all_bodies two_body_state 0)
  /\ (forall o, o ∈ all_bodies two_body_state 0 ->
        (0 < CelestialBody.mass (bodies two_body_state o))%R)
  /\ exists s',
       Classic.integrate 0 86400 two_body_state = Done tt s'
       /\ momentum s' [0; 1]%nat = momentum two_body_state [0; 1]%nat.
Proof.
  assert (Hnd : NoDup (all_bodies two_body_state 0)).
  { change (all_bodies two_body_state 0) with [0; 1]%nat.
    apply NoDup_cons. split; [| apply NoDup_singleton].
    intros H. apply list_elem_of_singleton in H. discriminate. }
  assert (Hmass : forall o, o ∈ all_bodies two_body_state 0 ->
            (0 < CelestialBody.mass (bodies two_body_state o))%R).
  { change (all_bodies two_body_state 0) with [0; 1]%nat. intros o Ho.
    apply elem_of_cons in Ho as [-> | Ho];
      [| apply list_elem_of_singleton in Ho as ->];
      cbv [two_body_state bodies sun earth CelestialBody.mass]; lra. }
  split; [exact Hnd | split; [exact Hmass |]].
  destruct (X2_integrate_conserves_momentum two_body_state 0 86400%R Hnd Hmass)
    as (s' & Hrun & _ & Hmom).
  exists s'. split; [exact Hrun | exact Hmom].
Defined.

(** X3.  [integrate] moves no body outside the flattened list of its star
    system, and no body of mass [<= 0] even inside it: every attribute of such
    a body is what it was. *)
Theorem X3_integrate_leaves_other_bodies s self dt o :
  (CelestialBody.mass (bodies s o) <= 0)%R \/ o ∉ all_bodies s self ->
  bodies (final (Classic.integrate self dt s)) o = bodies s o
  /\ bodies (final (Butterfly.integrate self dt s)) o = bodies s o.
Proof.
  intros H.
  change (Butterfly.integrate self dt s) with (Classic.integrate self dt s).
  rewrite integrate_unfold. destruct (_ <? 2)%nat; [split; reflexivity |].
  destruct (update_loop_bodies
              (zip (all_bodies s self) (net_forces s (all_bodies s self))) dt s)
    as (s' & -> & _ & Hout & Hheavy & _).
  cbn [final]. rewrite fst_zip in Hout by (rewrite net_forces_length; lia).
  destruct H as [H | H]; split; auto.
Qed.

Lemma X3_witness :
  (2%nat ∉ all_bodies two_body_state 0)
  /\ bodies (final (Classic.integrate 0 86400 two_body_state)) 2%nat = sun.
Proof.
  assert (H : 2%nat ∉ all_bodies two_body_state 0).
  { change (all_bodies two_body_state 0) with [0; 1]%nat. intros H.
    apply elem_of_cons in H as [H | H]; [discriminate |].
    apply list_elem_of_singleton in H. discriminate. }
  split; [exact H |].
  exact (proj1 (X3_integrate_leaves_other_bodies two_body_state 0 86400%R 2%nat
                  (or_intror H))).
Defined.

(** X4.  At or above the threshold the force of [force_from] has, in exact
    arithmetic, the
    magnitude of the inverse-square law, [G m1 m2 / r2], lies along the line
    from [self] to [other], and points towards [other] when the product of
    the masses is not negative. *)
Theorem X4_force_from_inverse_square s a b :
  (1e-10 <= separation2 s a b)%R ->
  let dx := (CelestialBody.x (bodies s b) - CelestialBody.x (bodies s a))%R in
  let dy := (CelestialBody.y (bodies s b) - CelestialBody.y (bodies s a))%R in
  let F := (Universe.G * CelestialBody.mass (bodies s a) * CelestialBody.mass (bodies s b)
            / separation2 s a b)%R in
  exists fx fy,
    Classic.force_from a b s = Done (fx, fy) s
    /\ Butterfly.force_from a b s = Done (fx, fy) s
    /\ (fx * fx + fy * fy = F * F)%R
    /\ (fx * dy = fy * dx)%R
    /\ ((0 <= CelestialBody.mass (bodies s a) * CelestialBody.mass (bodies s b))%R ->
        (0 <= fx * dx + fy * dy)%R).
Proof.
  intros Hsep dx dy F.
  change (Butterfly.force_from a b s) with (Classic.force_from a b s).
  rewrite force_from_gravity. unfold gravity. cbv zeta.
  destruct (Rlt_dec _ _) as [Hlt | _]; [lra |].
  fold dx dy F.
  assert (Hpos : (0 < separation2 s a b)%R) by lra.
  pose proof (sqrt_lt_R0 _ Hpos) as Hr.
  pose proof (sqrt_sqrt (separation2 s a b) ltac:(lra)) as Hrr.
  assert (Hr2 : separation2 s a b = (dx * dx + dy * dy)%R) by reflexivity.
  set (r := sqrt (separation2 s a b)) in *.
  eexists _, _. split; [reflexivity | split; [reflexivity |]].
  split; [| split].
  - replace (F * dx / r * (F * dx / r) + F * dy / r * (F * dy / r))%R
      with (F * F * (dx * dx + dy * dy) / (r * r))%R by (field; lra).
    rewrite <- Hr2, Hrr. field. lra.
  - field. lra.
  - intros Hm.
    replace (F * dx / r * dx + F * dy / r * dy)%R
      with (F * (dx * dx + dy * dy) / r)%R by (field; lra).
    rewrite <- Hr2.
    assert (HF : (0 <= F)%R).
    { unfold F. apply Rmult_le_pos; [| left; now apply Rinv_0_lt_compat].
      rewrite Rmult_assoc. apply Rmult_le_pos; [| exact Hm].
      unfold Universe.G. lra. }
    apply Rmult_le_pos; [| left; now apply Rinv_0_lt_compat].
    apply Rmult_le_pos; lra.
Qed.

Lemma X4_witness :
  (1e-10 <= separation2 two_body_state 0%nat 1%nat)%R
  /\ exists fx fy,
       Classic.force_from 0 1 two_body_state = Done (fx, fy) two_body_state
       /\ (fx * (0 - 0) = fy * (1.496e11 - 0))%R.
Proof.
  assert (H : (1e-10 <= separation2 two_body_state 0%nat 1%nat)%R).
  { cbv [separation2 two_body_state bodies earth sun CelestialBody.x CelestialBody.y]. lra. }
  split; [exact H |].
  destruct (X4_force_from_inverse_square two_body_state 0 1 H)
    as (fx & fy & Hrun & _ & _ & Hpar & _).
  exists fx, fy. split; [exact Hrun | exact Hpar].
Defined.

(** ** Further properties: the quantum event and the run *)

Section Sampling.

Lemma chosen_elem_of {A} (seq : list A) s k a : chosen seq s k = Some a -> a ∈ seq.
Proof. unfold chosen. apply list_elem_of_lookup_2. Qed.

(** A sampled star system is one the pass over the hierarchy reaches. *)
Lemma sampled_system_reachable u s ss :
  sampled_system u s = Some ss -> ss ∈ reachable_systems u.
Proof.
  unfold sampled_system, reachable_systems.
  destruct (chosen (Universe.superclusters u) s 0) as [sc |] eqn:Hsc; [| discriminate].
  destruct (chosen (SuperCluster.galaxy_clusters sc) s 1) as [gc |] eqn:Hgc; [| discriminate].
  destruct (chosen (GalaxyCluster.galaxies gc) s 2) as [gal |] eqn:Hgal; [| discriminate].
  intros Hss.
  apply chosen_elem_of, list_elem_of_In in Hsc, Hgc, Hgal, Hss.
  apply list_elem_of_In, in_flat_map. exists sc. split; [exact Hsc |].
  apply in_flat_map. exists gc. split; [exact Hgc |].
  apply in_flat_map. exists gal. split; [exact Hgal | exact Hss].
Qed.

End Sampling.

(** X5.  A quantum event is an observation: in both files, on every
    universe and with every generator, it returns normally with no body and no
    star system changed; it prints nothing when its walk meets an empty
    collection, and otherwise exactly one line, the spin ("up" or "down")
    measured on the primary of the sampled star system, which is one of the
    reachable ones. *)
Theorem X5_quantum_event_only_observes u k s :
  exists s',
    Classic._random_quantum_event u k s = Done tt s'
    /\ Butterfly._random_quantum_event u k s = Done tt s'
    /\ bodies s' = bodies s /\ systems s' = systems s /\ entropy s' = entropy s
    /\ ((meets_empty u s /\ log s' = log s)
        \/ (exists ss spin,
              sampled_system u s = Some ss
              /\ ss ∈ reachable_systems u
              /\ (spin = "up"%string \/ spin = "down"%string)
              /\ log s' = log s ++
                   [PrintMeasurement k
                      (CelestialBody.name (bodies s (StarSystem.primary (systems s ss))))
                      spin])).
Proof.
  destruct (classic_quantum_event u k s) as (s' & Hrun & Hb & Hs & He & Hlog).
  exists s'. rewrite butterfly_quantum_event.
  split; [exact Hrun | split; [exact Hrun | split; [exact Hb | split; [exact Hs |]]]].
  split; [exact He |].
  destruct (sampled_system u s) as [ss |] eqn:Hss.
  - right. destruct Hlog as (spin & Hspin & Hlog).
    exists ss, spin. split; [reflexivity |].
    split; [now apply (sampled_system_reachable u s) | split; [exact Hspin | exact Hlog]].
  - left. split; [now apply meets_empty_sampled_system | exact Hlog].
Qed.

Section Bracket.

Variable u : Universe.t.
Variable dt : R.

(** The passes of the two files over the hierarchy end in the same state;
    the one of classic_universe.py has counted the reachable systems. *)
Lemma integrate_all_agree s :
  exists s', Butterfly.integrate_all u dt s = Done tt s'
             /\ Classic.integrate_all u dt s = Done (Z.of_nat (length (reachable_systems u))) s'.
Proof.
  rewrite butterfly_integrate_all_flat, classic_integrate_all_flat.
  change (Z.of_nat (length (reachable_systems u)))
    with (0 + Z.of_nat (length (reachable_systems u)))%Z.
  generalize 0%Z as acc. revert s.
  induction (reachable_systems u) as [| ss l IH]; intros s acc; cbn [for_each length].
  - exists s. split; [reflexivity |]. unfold ret. f_equal. lia.
  - rewrite !bind_assoc, !bind_emit.
    destruct (integrate_kinematics_only ss dt (record (CallIntegrate ss) s)) as (s1 & H1 & _).
    rewrite (bind_done H1). rewrite bind_assoc, (bind_done H1), bind_ret.
    destruct (IH s1 (acc + 1)%Z) as (s2 & H2 & H2').
    exists s2. split; [exact H2 |]. rewrite H2'. f_equal. lia.
Qed.

(** The loops of the two files end in the same state. *)
Lemma loops_agree (ks : list Z) :
  forall acc s, exists s',
    for_each ks
      (fun (_ : unit) k =>
         Butterfly.integrate_all u dt ;;
         if (k mod 2 =? 0)%Z
         then emit (CallQuantumEvent k) ;; Butterfly._random_quantum_event u k
         else ret tt) tt s = Done tt s'
    /\ for_each ks
         (fun (_ : option Z) k =>
            total_systems <- Classic.integrate_all u dt ;;
            (if (k mod 2 =? 0)%Z
             then emit (CallQuantumEvent k) ;; Classic._random_quantum_event u k
             else ret tt) ;;
            ret (Some total_systems)) acc s
       = Done (match ks with [] => acc | _ => Some (Z.of_nat (length (reachable_systems u))) end) s'.
Proof.
  induction ks as [| k ks IH]; intros acc s; cbn [for_each].
  - exists s. split; reflexivity.
  - destruct (integrate_all_agree s) as (s1 & Hb & Hc).
    rewrite !bind_assoc, (bind_done Hb), (bind_done Hc).
    destruct (step_event u k s1) as (s2 & new & H2 & _).
    assert (H2' : (if (k mod 2 =? 0)%Z
                   then emit (CallQuantumEvent k) ;; Butterfly._random_quantum_event u k
                   else ret tt) s1 = Done tt s2).
    { rewrite <- H2. destruct (k mod 2 =? 0)%Z; [| reflexivity].
      rewrite !bind_emit. apply butterfly_quantum_event. }
    rewrite (bind_done H2'), bind_assoc, (bind_done H2), bind_ret.
    destruct (IH (Some (Z.of_nat (length (reachable_systems u)))) s2) as (s3 & H3 & H3').
    exists s3. split; [exact H3 |]. rewrite H3'. now destruct ks.
Qed.

End Bracket.

(** X6.  For at least one step, [run] of classic_universe.py is [run] of
    butterfly_effect.py between two printed lines: the announcement of the
    number of steps before, and after it the number of reachable star systems,
    the count of one step, not of the whole run. *)
Theorem X6_classic_run_is_butterfly_run_with_two_lines u steps dt s :
  (0 < steps)%Z ->
  Classic.run u steps dt s
  = (emit (PrintRunning steps) ;;
     Butterfly.run u steps dt ;;
     emit (PrintComplete (Z.of_nat (length (reachable_systems u))))) s.
Proof.
  intros Hsteps. unfold Classic.run, Butterfly.run. rewrite !bind_emit.
  destruct (loops_agree u dt (range_int steps) None (record (PrintRunning steps) s))
    as (s' & Hb & Hc).
  rewrite (bind_done Hb), (bind_done Hc).
  pose proof (range_int_nonempty steps Hsteps).
  now destruct (range_int steps).
Qed.

Lemma X6_witness :
  (0 < 6)%Z
  /\ Classic.run demo_universe 6 86400 two_body_state
     = (emit (PrintRunning 6) ;;
        Butterfly.run demo_universe 6 86400 ;;
        emit (PrintComplete 1)) two_body_state.
Proof.
  split; [reflexivity |].
  exact (X6_classic_run_is_butterfly_run_with_two_lines demo_universe 6 86400%R
           two_body_state eq_refl).
Defined.

(** ** Further properties: invariants of a run *)

Section RunInvariant.

Variable u : Universe.t.
Variable dt : R.
Variable steps : Z.
Variable Inv : State -> Prop.

Hypothesis Inv_call_integrate :
  forall ss s, ss ∈ reachable_systems u -> Inv s -> Inv (record (CallIntegrate ss) s).
Hypothesis Inv_integrate :
  forall ss s s', ss ∈ reachable_systems u -> Inv s ->
    Classic.integrate ss dt s = Done tt s' -> Inv s'.
Hypothesis Inv_call_event :
  forall k s, (0 <= k < steps)%Z -> (k mod 2 = 0)%Z -> Inv s ->
    Inv (record (CallQuantumEvent k) s).
Hypothesis Inv_event :
  forall k s s', (0 <= k < steps)%Z -> (k mod 2 = 0)%Z -> Inv s ->
    event_outcome u k s s' -> Inv s'.

Lemma integrate_all_invariant s :
  Inv s -> exists s', Butterfly.integrate_all u dt s = Done tt s' /\ Inv s'.
Proof using Inv_call_integrate Inv_integrate.
  rewrite butterfly_integrate_all_flat.
  assert (H : forall l : list loc, (forall ss, ss ∈ l -> ss ∈ reachable_systems u) ->
    forall s0, Inv s0 -> exists s',
      for_each l (fun (_ : unit) ss => emit (CallIntegrate ss) ;; Classic.integrate ss dt) tt s0
      = Done tt s' /\ Inv s').
  { induction l as [| ss l IH]; intros Hl s0 H0; cbn [for_each].
    - now exists s0.
    - rewrite bind_assoc, bind_emit.
      destruct (integrate_kinematics_only ss dt (record (CallIntegrate ss) s0)) as (s1 & H1 & _).
      rewrite (bind_done H1).
      apply IH; [intros ss' Hin; apply Hl; now right |].
      apply (Inv_integrate ss _ _ (Hl ss ltac:(left))
               (Inv_call_integrate ss s0 (Hl ss ltac:(left)) H0) H1). }
  apply H. auto.
Qed.

Lemma range_int_bounds k : k ∈ range_int steps -> (0 <= k < steps)%Z.
Proof.
  unfold range_int. intros H. apply list_elem_of_fmap in H as (n & -> & Hn).
  apply elem_of_seq in Hn. lia.
Qed.

Lemma butterfly_run_invariant s : Inv s -> Inv (final (Butterfly.run u steps dt s)).
Proof using Inv_call_integrate Inv_integrate Inv_call_event Inv_event.
  unfold Butterfly.run.
  assert (H : forall ks : list Z, (forall k, k ∈ ks -> (0 <= k < steps)%Z) ->
    forall s0, Inv s0 -> exists s',
      for_each ks
        (fun (_ : unit) k =>
           Butterfly.integrate_all u dt ;;
           if (k mod 2 =? 0)%Z
           then emit (CallQuantumEvent k) ;; Butterfly._random_quantum_event u k
           else ret tt) tt s0 = Done tt s' /\ Inv s').
  { induction ks as [| k ks IH]; intros Hks s0 H0; cbn [for_each].
    - now exists s0.
    - destruct (integrate_all_invariant s0 H0) as (s1 & H1 & I1).
      rewrite bind_assoc, (bind_done H1).
      assert (Hk : (0 <= k < steps)%Z) by (apply Hks; left).
      destruct (Z.eqb_spec (k mod 2) 0) as [Heven | _].
      + rewrite bind_assoc, bind_emit.
        destruct (classic_quantum_event u k (record (CallQuantumEvent k) s1)) as (s2 & H2 & O2).
        rewrite <- butterfly_quantum_event in H2. rewrite (bind_done H2).
        apply IH; [intros k' Hin; apply Hks; now right |].
        apply (Inv_event k _ _ Hk Heven (Inv_call_event k s1 Hk Heven I1) O2).
      + rewrite bind_ret. apply IH; [intros k' Hin; apply Hks; now right | exact I1]. }
  intros H0. destruct (H (range_int steps) range_int_bounds s H0) as (s' & -> & I'). exact I'.
Qed.

End RunInvariant.

Section ZeroStep.

Lemma classic_run_final u steps dt s :
  (0 < steps)%Z ->
  final (Classic.run u steps dt s)
  = record (PrintComplete (Z.of_nat (length (reachable_systems u))))
      (final (Butterfly.run u steps dt (record (PrintRunning steps) s))).
Proof.
  intros Hsteps. unfold Classic.run, Butterfly.run. rewrite bind_emit.
  destruct (loops_agree u dt (range_int steps) None (record (PrintRunning steps) s))
    as (s' & Hb & Hc).
  rewrite Hb, (bind_done Hc).
  pose proof (range_int_nonempty steps Hsteps).
  now destruct (range_int steps).
Qed.

End ZeroStep.

(** X7.  In exact arithmetic, with [dt = 0] nothing moves: [integrate] and
    [run], in both files and however the run ends, leave every attribute of
    every body as it was.  (On the floats of the code this needs the forces
    to be finite: see [binary64_zero_time_step_overflow].) *)
Theorem X7_zero_time_step_moves_nothing s o :
  (forall self,
      bodies (final (Classic.integrate self 0 s)) o = bodies s o
      /\ bodies (final (Butterfly.integrate self 0 s)) o = bodies s o)
  /\ (forall u steps,
        bodies (final (Classic.run u steps 0 s)) o = bodies s o
        /\ bodies (final (Butterfly.run u steps 0 s)) o = bodies s o).
Proof.
  split.
  - intros self.
    change (Butterfly.integrate self 0 s) with (Classic.integrate self 0 s).
    destruct (integrate_dt_0 self s) as (s' & -> & H). split; apply H.
  - intros u steps.
    assert (Hb : forall s0, (forall o', bodies s0 o' = bodies s o') ->
              forall o', bodies (final (Butterfly.run u steps 0 s0)) o' = bodies s o').
    { intros s0 H0.
      apply (butterfly_run_invariant u 0%R steps (fun s' => forall o', bodies s' o' = bodies s o'));
        [| | | | exact H0].
      - intros ss s1 _ H1. exact H1.
      - intros ss s1 s1' _ H1 Hrun o'.
        destruct (integrate_dt_0 ss s1) as (s2 & H2 & Hsame).
        rewrite Hrun in H2. injection H2 as <-. now rewrite Hsame.
      - intros k s1 _ _ H1. exact H1.
      - intros k s1 s1' _ _ H1 (Hbodies & _) o'. now rewrite Hbodies. }
    split; [| now apply Hb].
    destruct (Z_lt_le_dec 0 steps) as [Hpos | Hle].
    + rewrite (classic_run_final u steps 0%R s Hpos). cbn [record bodies].
      now apply Hb.
    + now rewrite (classic_run_no_step u steps 0%R s Hle).
Qed.

(** X8.  What a run writes to its log, in both files and however it ends:
    its own two lines (classic_universe.py only, the second with the number
    of reachable star systems), the calls to [integrate] on reachable systems
    and to the quantum event at even counters below [steps], and measurement
    lines, each tagged with such a counter and naming the primary of a
    reachable system with spin "up" or "down".  The line "Quantum event
    failed" is never written. *)
Theorem X8_lines_of_a_run u steps dt s :
  (exists new,
      log (final (Classic.run u steps dt s)) = log s ++ new
      /\ Forall (expected_line u s steps) new)
  /\ (exists new,
        log (final (Butterfly.run u steps dt s)) = log s ++ new
        /\ Forall (expected_line u s steps) new).
Proof.
  set (Inv := fun s' => same_static s s'
                /\ exists new, log s' = log s ++ new /\ Forall (expected_line u s steps) new).
  assert (Hrecord : forall e s', expected_line u s steps e -> Inv s' -> Inv (record e s')).
  { intros e s' He (Hst & new & Hlog & Hall). split; [exact Hst |].
    exists (new ++ [e]). split.
    - cbn [record log]. now rewrite Hlog, app_assoc.
    - apply Forall_app. split; [exact Hall | now constructor]. }
  assert (Hb : forall s0, Inv s0 -> Inv (final (Butterfly.run u steps dt s0))).
  { intros s0 H0. apply (butterfly_run_invariant u dt steps Inv); [| | | | exact H0].
    - intros ss s1 Hin H1. now apply Hrecord.
    - intros ss s1 s1' _ (Hst & new & Hlog & Hall) Hrun.
      destruct (integrate_kinematics_only ss dt s1) as (s2 & H2 & (Hst2 & _ & _ & Hlog2)).
      rewrite Hrun in H2. injection H2 as <-.
      split; [eapply same_static_trans; eauto |].
      exists new. now rewrite Hlog2.
    - intros k s1 Hk Heven H1. now apply Hrecord.
    - intros k s1 s1' Hk Heven (Hst & new & Hlog & Hall) (Hbodies & Hsys & _ & Hout).
      split.
      { eapply same_static_trans; [exact Hst |].
        split; intros; [rewrite Hbodies | rewrite Hsys]; auto. }
      destruct (sampled_system u s1) as [ss |] eqn:Hss.
      + destruct Hout as (spin & Hspin & Hout).
        eexists. split; [rewrite Hout, Hlog, <- app_assoc; reflexivity |].
        apply Forall_app. split; [exact Hall |]. constructor; [| constructor].
        cbn [expected_line]. split; [auto | split; [exact Hspin |]].
        exists ss. split; [now apply (sampled_system_reachable u s1) |].
        destruct Hst as [Hb Hs]. rewrite Hs. now destruct (Hb (StarSystem.primary (systems s ss))) as (-> & _).
      + exists new. now rewrite Hout. }
  assert (H0 : Inv s).
  { split; [apply same_static_refl |]. exists []. split; [now rewrite app_nil_r | constructor]. }
  split; [| apply Hb, H0].
  destruct (Z_lt_le_dec 0 steps) as [Hpos | Hle].
  - rewrite (classic_run_final u steps dt s Hpos).
    apply Hrecord; [reflexivity |]. apply Hb. now apply Hrecord.
  - rewrite (classic_run_no_step u steps dt s Hle). now apply Hrecord.
Qed.

(** ** Further properties: the schedule of a run *)

Section Schedule.

Lemma integrations_of_schedule u (ks : list Z) :
  length (List.filter is_integration (flat_map (calls_of_step u) ks))
  = (length ks * length (reachable_systems u))%nat.
Proof.
  induction ks as [| k ks IH]; [reflexivity |].
  cbn [flat_map length]. rewrite List.filter_app, length_app, IH.
  unfold calls_of_step. rewrite List.filter_app, length_app.
  assert (H : forall l, List.filter is_integration (map CallIntegrate l) = map CallIntegrate l).
  { induction l as [| a l IHl]; cbn; [reflexivity | now f_equal]. }
  rewrite H, length_map. destruct (k mod 2 =? 0)%Z; cbn; lia.
Qed.

Lemma quantum_events_of_schedule u (ks : list Z) :
  quantum_events (flat_map (calls_of_step u) ks)
  = map CallQuantumEvent (List.filter (fun k => (k mod 2 =? 0)%Z) ks).
Proof.
  unfold quantum_events. induction ks as [| k ks IH]; [reflexivity |].
  cbn [flat_map List.filter]. rewrite List.filter_app, IH.
  unfold calls_of_step. rewrite List.filter_app.
  assert (H : forall l, List.filter is_quantum_event (map CallIntegrate l) = []).
  { induction l; [reflexivity | assumption]. }
  rewrite H. now destruct (k mod 2 =? 0)%Z.
Qed.

(** The even counters below [steps] are 0, 2, 4, ...: there are
    [(steps + 1) / 2] of them. *)
Lemma even_counters steps :
  List.filter (fun k => (k mod 2 =? 0)%Z) (range_int steps)
  = map (fun i => (2 * i)%Z) (range_int ((steps + 1) / 2)).
Proof.
  unfold range_int.
  assert (Heven : forall m : nat, ((Z.of_nat (2 * m)) mod 2 =? 0)%Z = true).
  { intros m. apply Z.eqb_eq. replace (Z.of_nat (2 * m)) with (Z.of_nat m * 2)%Z by lia.
    apply Z_mod_mult. }
  assert (Hodd : forall m : nat, ((Z.of_nat (2 * m + 1)) mod 2 =? 0)%Z = false).
  { intros m. apply Z.eqb_neq.
    replace (Z.of_nat (2 * m + 1)) with (1 + Z.of_nat m * 2)%Z by lia.
    rewrite Z_mod_plus_full. discriminate. }
  assert (Hpairs : forall m : nat,
    List.filter (fun k => (k mod 2 =? 0)%Z) (map Z.of_nat (seq 0 (2 * m)))
    = map (fun i => (2 * i)%Z) (map Z.of_nat (seq 0 m))).
  { induction m as [| m IH]; [reflexivity |].
    replace (2 * S m)%nat with (2 * m + 2)%nat by lia.
    rewrite seq_app, map_app, List.filter_app, IH, (seq_S m 0), !map_app.
    cbn [seq map List.filter Nat.add].
    replace (S (2 * m)) with (2 * m + 1)%nat by lia.
    rewrite Heven, Hodd. do 2 f_equal. lia. }
  destruct (Z_lt_le_dec steps 0) as [Hneg | Hpos].
  { replace (Z.to_nat steps) with 0%nat by lia.
    replace (Z.to_nat ((steps + 1) / 2)) with 0%nat; [reflexivity |].
    assert ((steps + 1) / 2 <= 0)%Z by (apply Z.div_le_upper_bound; lia). lia. }
  destruct (Nat.Even_or_Odd (Z.to_nat steps)) as [[m Hm] | [m Hm]].
  - replace (Z.to_nat ((steps + 1) / 2)) with m.
    + rewrite Hm. apply Hpairs.
    + assert (steps = 2 * Z.of_nat m)%Z by lia. subst steps.
      replace (2 * Z.of_nat m + 1)%Z with (1 + Z.of_nat m * 2)%Z by lia.
      rewrite Z_div_plus_full by lia. change (1 / 2)%Z with 0%Z. lia.
  - replace (Z.to_nat ((steps + 1) / 2)) with (m + 1)%nat.
    + replace (m + 1)%nat with (S m) by lia.
      rewrite Hm, seq_app, map_app, List.filter_app, Hpairs, (seq_S m 0), !map_app.
      cbn [seq map List.filter Nat.add]. rewrite Heven. do 2 f_equal. lia.
    + assert (steps = 2 * Z.of_nat m + 1)%Z by lia. subst steps.
      replace (2 * Z.of_nat m + 1 + 1)%Z with ((Z.of_nat m + 1) * 2)%Z by lia.
      rewrite Z_div_mult_full by lia. lia.
Qed.

End Schedule.

(** X9.  The schedule of a run of [steps] steps, in both files: every step
    integrates every reachable star system once, in declaration order, so
    that [steps * len(reachable)] integrations are made in all; the quantum
    event is attempted after the integrations of the steps 0, 2, 4, ...,
    [(steps + 1) / 2] times in all.  (classic_universe.py: for at least one
    step.) *)
Theorem X9_schedule_of_a_run u steps dt s :
  (exists s' new,
      Butterfly.run u steps dt s = Done tt s'
      /\ log s' = log s ++ new
      /\ calls new = flat_map (calls_of_step u) (range_int steps)
      /\ integrations new = (Z.to_nat steps * length (reachable_systems u))%nat
      /\ quantum_events new
         = map (fun i => CallQuantumEvent (2 * i)) (range_int ((steps + 1) / 2)))
  /\ ((0 < steps)%Z ->
      exists s' new,
        Classic.run u steps dt s = Done tt s'
        /\ log s' = log s ++ new
        /\ calls new = flat_map (calls_of_step u) (range_int steps)
        /\ integrations new = (Z.to_nat steps * length (reachable_systems u))%nat
        /\ quantum_events new
           = map (fun i => CallQuantumEvent (2 * i)) (range_int ((steps + 1) / 2))).
Proof.
  assert (Hcount : forall new,
    calls new = flat_map (calls_of_step u) (range_int steps) ->
    integrations new = (Z.to_nat steps * length (reachable_systems u))%nat
    /\ quantum_events new
       = map (fun i => CallQuantumEvent (2 * i)) (range_int ((steps + 1) / 2))).
  { intros new C. split.
    - unfold integrations. rewrite <- integrations_calls, C, integrations_of_schedule.
      unfold range_int. now rewrite length_map, length_seq.
    - rewrite <- quantum_events_calls, C, quantum_events_of_schedule, even_counters.
      now rewrite map_map. }
  split.
  - destruct (butterfly_run u steps dt s) as (s' & new & Hrun & (_ & _ & Hlog) & C & _).
    exists s', new. destruct (Hcount new C). auto.
  - intros Hsteps.
    destruct (classic_run u steps dt s Hsteps) as (s' & new & Hrun & (_ & _ & Hlog) & C & _).
    exists s', new. destruct (Hcount new C). auto.
Qed.

Lemma X9_witness :
  (0 < 5)%Z
  /\ exists s' new,
       Classic.run demo_universe 5 86400 two_body_state = Done tt s'
       /\ integrations new = 5%nat
       /\ quantum_events new = [CallQuantumEvent 0; CallQuantumEvent 2; CallQuantumEvent 4].
Proof.
  split; [reflexivity |].
  destruct (proj2 (X9_schedule_of_a_run demo_universe 5 86400%R two_body_state) eq_refl)
    as (s' & new & Hrun & _ & _ & Hi & Hq).
  exists s', new. split; [exact Hrun | split; [exact Hi | exact Hq]].
Defined.

(** X10.  When [run] returns.  In butterfly_effect.py always; asked for no
    step ([steps <= 0], negative values included) it returns in the state it
    was called in.  In classic_universe.py if and only if [steps >= 1];
    otherwise it raises [UnboundLocalError] after its first line, having
    consumed no draw and moved no body. *)
Theorem X10_when_run_returns u steps dt s :
  returns (Butterfly.run u steps dt s)
  /\ (returns (Classic.run u steps dt s) <-> (0 < steps)%Z)
  /\ ((steps <= 0)%Z ->
      Butterfly.run u steps dt s = Done tt s
      /\ Classic.run u steps dt s
         = Raised UnboundLocalError (record (PrintRunning steps) s)).
Proof.
  split; [| split].
  - destruct (butterfly_run u steps dt s) as (s' & new & -> & _). exact I.
  - split.
    + intros Hret. destruct (Z_lt_le_dec 0 steps) as [Hpos | Hle]; [exact Hpos |].
      rewrite (classic_run_no_step u steps dt s Hle) in Hret. destruct Hret.
    + intros Hpos. destruct (classic_run u steps dt s Hpos) as (s' & new & -> & _). exact I.
  - intros Hle. split; [now apply butterfly_run_no_step | now apply classic_run_no_step].
Qed.

Lemma X10_witness :
  (-3 <= 0)%Z
  /\ Classic.run demo_universe (-3) 86400 two_body_state
     = Raised UnboundLocalError (record (PrintRunning (-3)) two_body_state).
Proof.
  assert (H : (-3 <= 0)%Z) by lia.
  split; [exact H |].
  exact (proj2 (proj2 (proj2 (X10_when_run_returns demo_universe (-3) 86400%R two_body_state))
                  H)).
Defined.

(** ** Further properties: dynamics and observation are separate *)

Section StoreOnly.

Lemma update_store_only self fx fy dt : store_only (Classic.update self fx fy dt).
Proof.
  intros e d l s. unfold Classic.update. rewrite !bind_getattr.
  change (bodies (with_ghost e d l s)) with (bodies s).
  destruct (Rle_dec _ _) as [Hle | Hgt]; [reflexivity |].
  rewrite !bind_getattr.
  change (bodies (with_ghost e d l s)) with (bodies s).
  rewrite !bind_truediv by lra. rewrite !bind_getattr.
  change (bodies (with_ghost e d l s)) with (bodies s).
  rewrite !bind_truediv by lra. reflexivity.
Qed.

Lemma for_each_store_only {A B} (l : list A) (body : B -> A -> M B) :
  (forall acc v, store_only (body acc v)) ->
  forall acc, store_only (for_each l body acc).
Proof.
  intros Hbody. induction l as [| v l IH]; intros acc e d g s; cbn [for_each].
  - reflexivity.
  - unfold bind. rewrite Hbody.
    destruct (body acc v s) as [acc' s' | x s']; cbn [outcome_map]; [apply IH | reflexivity].
Qed.

Lemma integrate_store_only self dt : store_only (Classic.integrate self dt).
Proof.
  intros e d l s. rewrite !integrate_unfold.
  change (all_bodies (with_ghost e d l s) self) with (all_bodies s self).
  change (net_forces (with_ghost e d l s)) with (net_forces s).
  destruct (_ <? 2)%nat; [reflexivity |].
  apply for_each_store_only. intros acc bf. apply update_store_only.
Qed.

Lemma same_stores_refl s : same_stores s s.
Proof. split; reflexivity. Qed.

Lemma same_stores_sym s t : same_stores s t -> same_stores t s.
Proof. intros [? ?]. split; congruence. Qed.

Lemma same_stores_trans s t r : same_stores s t -> same_stores t r -> same_stores s r.
Proof. intros [? ?] [? ?]. split; congruence. Qed.

Lemma same_stores_with_ghost s t :
  same_stores s t -> t = with_ghost (entropy t) (drawn t) (log t) s.
Proof.
  destruct s, t. unfold same_stores, with_ghost. cbn. intros [-> ->]. reflexivity.
Qed.

(** From states with the same stores, [integrate] ends with the same
    stores. *)
Lemma integrate_same_stores self dt s t :
  same_stores s t ->
  same_stores (final (Classic.integrate self dt s)) (final (Classic.integrate self dt t)).
Proof.
  intros H. rewrite (same_stores_with_ghost s t H), integrate_store_only.
  destruct (Classic.integrate self dt s); split; reflexivity.
Qed.

Lemma integrate_all_same_stores u dt s t :
  same_stores s t ->
  exists s' t',
    Butterfly.integrate_all u dt s = Done tt s'
    /\ Butterfly.integrate_all u dt t = Done tt t'
    /\ same_stores s' t'.
Proof.
  rewrite !butterfly_integrate_all_flat. revert s t.
  induction (reachable_systems u) as [| ss l IH]; intros s t H; cbn [for_each].
  - exists s, t. auto.
  - rewrite !bind_assoc, !bind_emit.
    assert (H0 : same_stores (record (CallIntegrate ss) s) (record (CallIntegrate ss) t))
      by exact H.
    pose proof (integrate_same_stores ss dt _ _ H0) as H1.
    destruct (integrate_kinematics_only ss dt (record (CallIntegrate ss) s)) as (s1 & Hs & _).
    destruct (integrate_kinematics_only ss dt (record (CallIntegrate ss) t)) as (t1 & Ht & _).
    rewrite Hs, Ht in H1. rewrite (bind_done Hs), (bind_done Ht).
    now apply IH.
Qed.

Lemma step_event_same_stores u k s :
  exists s',
    (if (k mod 2 =? 0)%Z
     then emit (CallQuantumEvent k) ;; Butterfly._random_quantum_event u k
     else ret tt) s = Done tt s'
    /\ same_stores s s'.
Proof.
  destruct (k mod 2 =? 0)%Z.
  - rewrite bind_emit, butterfly_quantum_event.
    destruct (classic_quantum_event u k (record (CallQuantumEvent k) s))
      as (s' & H & Hb & Hs & _).
    exists s'. split; [exact H |]. split; [now rewrite Hb | now rewrite Hs].
  - exists s. split; [reflexivity | apply same_stores_refl].
Qed.

(** Two loops of the same number of steps, from states with the same
    stores, end with the same stores: neither the counters, nor the
    generator, nor the log matter. *)
Lemma loops_same_stores u dt (ks ks' : list Z) :
  length ks = length ks' ->
  forall s t, same_stores s t ->
  exists s' t',
    for_each ks
      (fun (_ : unit) k =>
         Butterfly.integrate_all u dt ;;
         if (k mod 2 =? 0)%Z
         then emit (CallQuantumEvent k) ;; Butterfly._random_quantum_event u k
         else ret tt) tt s = Done tt s'
    /\ for_each ks'
         (fun (_ : unit) k =>
            Butterfly.integrate_all u dt ;;
            if (k mod 2 =? 0)%Z
            then emit (CallQuantumEvent k) ;; Butterfly._random_quantum_event u k
            else ret tt) tt t = Done tt t'
    /\ same_stores s' t'.
Proof.
  revert ks'. induction ks as [| k ks IH]; intros [| k' ks'] Hlen s t H;
    try discriminate; cbn [for_each].
  - exists s, t. auto.
  - destruct (integrate_all_same_stores u dt s t H) as (s1 & t1 & Hs1 & Ht1 & H1).
    rewrite !bind_assoc, (bind_done Hs1), (bind_done Ht1).
    destruct (step_event_same_stores u k s1) as (s2 & Hs2 & Es).
    destruct (step_event_same_stores u k' t1) as (t2 & Ht2 & Et).
    rewrite (bind_done Hs2), (bind_done Ht2).
    apply IH; [now injection Hlen |].
    eapply same_stores_trans; [apply same_stores_sym, Es |].
    eapply same_stores_trans; [exact H1 | exact Et].
Qed.

Lemma butterfly_run_same_stores u steps dt s t :
  same_stores s t ->
  same_stores (final (Butterfly.run u steps dt s)) (final (Butterfly.run u steps dt t)).
Proof.
  intros H. unfold Butterfly.run.
  destruct (loops_same_stores u dt (range_int steps) (range_int steps) eq_refl s t H)
    as (s' & t' & -> & -> & H'). exact H'.
Qed.

Lemma classic_run_same_stores u steps dt s t :
  same_stores s t ->
  same_stores (final (Classic.run u steps dt s)) (final (Classic.run u steps dt t)).
Proof.
  intros H. destruct (Z_lt_le_dec 0 steps) as [Hpos | Hle].
  - rewrite !classic_run_final by exact Hpos.
    apply (butterfly_run_same_stores u steps dt
             (record (PrintRunning steps) s) (record (PrintRunning steps) t)), H.
  - rewrite !classic_run_no_step by exact Hle. exact H.
Qed.

Lemma classic_butterfly_same_stores u steps dt s t :
  same_stores s t ->
  same_stores (final (Classic.run u steps dt s)) (final (Butterfly.run u steps dt t)).
Proof.
  intros H. destruct (Z_lt_le_dec 0 steps) as [Hpos | Hle].
  - rewrite classic_run_final by exact Hpos.
    apply (butterfly_run_same_stores u steps dt (record (PrintRunning steps) s) t), H.
  - rewrite classic_run_no_step, butterfly_run_no_step by exact Hle. exact H.
Qed.

(** A run of [a + b] steps against a run of [a] steps followed by one of
    [b]. *)
Lemma butterfly_run_split u a b dt s :
  (0 <= a)%Z -> (0 <= b)%Z ->
  same_stores (final (Butterfly.run u (a + b) dt s))
    (final (Butterfly.run u b dt (final (Butterfly.run u a dt s)))).
Proof.
  intros Ha Hb.
  destruct (butterfly_loop u dt (range_int a) s) as (s1 & new & H1 & _).
  assert (E1 : final (Butterfly.run u a dt s) = s1).
  { unfold Butterfly.run. now rewrite H1. }
  rewrite E1. unfold Butterfly.run. unfold range_int at 1.
  replace (Z.to_nat (a + b)) with (Z.to_nat a + Z.to_nat b)%nat by lia.
  rewrite seq_app, map_app, for_each_app. fold (range_int a).
  rewrite (bind_done H1).
  destruct (loops_same_stores u dt (map Z.of_nat (seq (0 + Z.to_nat a) (Z.to_nat b)))
              (range_int b)) with (s := s1) (t := s1) as (s2 & t2 & -> & Ht & H2).
  - unfold range_int. now rewrite !length_map, !length_seq.
  - apply same_stores_refl.
  - now rewrite Ht.
Qed.

End StoreOnly.

(** X11.  The dynamics do not depend on the observations: two runs of the
    same number of steps over the same universe, started with the same bodies
    and star systems, end with the same bodies and star systems, whatever the
    generators and the logs they start with, in both files and however they
    end.  The quantum events change no trajectory. *)
Theorem X11_trajectories_ignore_generator_and_log u steps dt s t :
  same_stores s t ->
  same_stores (final (Classic.run u steps dt s)) (final (Classic.run u steps dt t))
  /\ same_stores (final (Butterfly.run u steps dt s)) (final (Butterfly.run u steps dt t))
  /\ same_stores (final (Classic.run u steps dt s)) (final (Butterfly.run u steps dt t)).
Proof.
  intros H. split; [now apply classic_run_same_stores |].
  split; [now apply butterfly_run_same_stores | now apply classic_butterfly_same_stores].
Qed.

Lemma X11_witness :
  same_stores two_body_state (with_ghost (fun _ => 7%nat) 3 [] two_body_state)
  /\ bodies (final (Classic.run demo_universe 6 86400 two_body_state))
     = bodies (final (Butterfly.run demo_universe 6 86400
                        (with_ghost (fun _ => 7%nat) 3 [] two_body_state))).
Proof.
  assert (H : same_stores two_body_state (with_ghost (fun _ => 7%nat) 3 [] two_body_state))
    by (split; reflexivity).
  split; [exact H |].
  exact (proj1 (proj2 (proj2 (X11_trajectories_ignore_generator_and_log
                                demo_universe 6 86400%R _ _ H)))).
Defined.

(** X12.  Runs compose: the bodies and star systems after a run of [a + b]
    steps are those after a run of [a] steps followed by a run of [b] steps
    (the counter of the second run starts again at 0, which moves the quantum
    events but no body).  classic_universe.py: for [a] and [b] at least 1. *)
Theorem X12_runs_compose u a b dt s :
  (0 <= a)%Z -> (0 <= b)%Z ->
  same_stores (final (Butterfly.run u (a + b) dt s))
    (final (Butterfly.run u b dt (final (Butterfly.run u a dt s))))
  /\ ((0 < a)%Z -> (0 < b)%Z ->
      same_stores (final (Classic.run u (a + b) dt s))
        (final (Classic.run u b dt (final (Classic.run u a dt s))))).
Proof.
  intros Ha Hb. split; [now apply butterfly_run_split |].
  intros Ha' Hb'.
  eapply same_stores_trans;
    [apply (classic_butterfly_same_stores u (a + b) dt s s), same_stores_refl |].
  eapply same_stores_trans; [apply butterfly_run_split; assumption |].
  apply same_stores_sym.
  apply (classic_butterfly_same_stores u b dt).
  apply (classic_butterfly_same_stores u a dt s s), same_stores_refl.
Qed.

Lemma X12_witness :
  (0 <= 3)%Z /\ (0 <= 4)%Z
  /\ same_stores (final (Butterfly.run demo_universe (3 + 4) 86400 two_body_state))
       (final (Butterfly.run demo_universe 4 86400
                 (final (Butterfly.run demo_universe 3 86400 two_body_state)))).
Proof.
  assert (Ha : (0 <= 3)%Z) by lia. assert (Hb : (0 <= 4)%Z) by lia.
  split; [exact Ha | split; [exact Hb |]].
  exact (proj1 (X12_runs_compose demo_universe 3 4 86400%R two_body_state Ha Hb)).
Defined.

(** ** Further properties: star systems do not interact *)

Section Independence.






End Independence.



(** ** Further properties: building a star system, and inert bodies *)

(** X14.  A moon added to a planet is integrated with the planet: after
    [planet.add_moon(moon)] the moon belongs to the flattened list of exactly
    those star systems that list the planet among their planets, and no other
    membership changes.  It makes no difference whether the planet joins a
    star system before or after it receives the moon: [add_planet] and
    [add_moon] commute, and after both the planet and the moon are among the
    bodies of the system. *)
Theorem X14_added_moon_is_integrated s planet moon :
  exists s',
    add_moon planet moon s = Done tt s'
    /\ (forall ss o,
          o ∈ all_bodies s' ss
          <-> o ∈ all_bodies s ss
              \/ (o = moon /\ planet ∈ StarSystem.planets (systems s ss)))
    /\ (forall ss,
          (add_planet ss planet ;; add_moon planet moon) s
          = (add_moon planet moon ;; add_planet ss planet) s)
    /\ (forall ss, exists s'',
          (add_moon planet moon ;; add_planet ss planet) s = Done tt s''
          /\ planet ∈ all_bodies s'' ss /\ moon ∈ all_bodies s'' ss).
Proof.
  eexists. split; [reflexivity |]. split; [| split].
  - intros ss o. unfold all_bodies. cbv zeta.
    change (systems (store_body planet _ s) ss) with (systems s ss).
    set (sys := systems s ss).
    rewrite !elem_of_app, !list_elem_of_In, !in_flat_map.
    setoid_rewrite <- list_elem_of_In.
    assert (Hmoons : forall q,
      o ∈ CelestialBody.moons (bodies (store_body planet
            (CelestialBody.mk (CelestialBody.name (bodies s planet))
               (CelestialBody.mass (bodies s planet)) (CelestialBody.x (bodies s planet))
               (CelestialBody.y (bodies s planet)) (CelestialBody.vx (bodies s planet))
               (CelestialBody.vy (bodies s planet))
               (CelestialBody.moons (bodies s planet) ++ [moon])) s) q)
      <-> o ∈ CelestialBody.moons (bodies s q) \/ (o = moon /\ q = planet)).
    { intros q. cbn [bodies store_body]. destruct (Nat.eqb_spec q planet) as [-> | Hne].
      - cbn [CelestialBody.moons]. rewrite elem_of_app, list_elem_of_singleton. tauto.
      - split; [auto | intros [? | [_ ?]]; [assumption | contradiction]]. }
    split.
    + intros [H | [H | [H | [H | (q & Hq & H)]]]];
        [left; left; exact H | left; right; left; exact H
        | left; right; right; left; exact H
        | left; right; right; right; left; exact H |].
      apply Hmoons in H as [H | [-> ->]]; [| right; split; [reflexivity | exact Hq]].
      left. do 4 right. exists q. split; assumption.
    + intros [[H | [H | [H | [H | (q & Hq & H)]]]] | [-> Hp]];
        [left; exact H | right; left; exact H | right; right; left; exact H
        | right; right; right; left; exact H | |].
      * do 4 right. exists q. split; [exact Hq |]. apply Hmoons. left. exact H.
      * do 4 right. exists planet. split; [exact Hp |]. apply Hmoons. right. split; reflexivity.
  - intros ss. reflexivity.
  - intros ss. eexists. split; [reflexivity |].
    unfold all_bodies. cbv zeta. cbn [systems store_system bodies store_body].
    rewrite Nat.eqb_refl. cbn [StarSystem.planets StarSystem.primary StarSystem.asteroids
                               StarSystem.stellar_remnants].
    split.
    + rewrite !elem_of_app. right. left. right. apply list_elem_of_singleton. reflexivity.
    + rewrite !elem_of_app. do 4 right. apply list_elem_of_In, in_flat_map.
      exists planet. split; [apply in_or_app; right; now left |].
      rewrite Nat.eqb_refl. cbn [CelestialBody.moons]. apply in_or_app. right. now left.
Qed.

Section Inert.
Local Open Scope R_scope.

Lemma gravity_massless s a b :
  CelestialBody.mass (bodies s a) = 0 \/ CelestialBody.mass (bodies s b) = 0 ->
  gravity s a b = (0, 0).
Proof.
  intros H. unfold gravity. cbv zeta.
  destruct (Rlt_dec _ _) as [Hlt | Hge]; [reflexivity |].
  assert (Hr : sqrt (separation2 s a b) <> 0).
  { pose proof (sqrt_lt_R0 (separation2 s a b)). lra. }
  assert (Hs : separation2 s a b <> 0) by lra.
  destruct H as [-> | ->]; f_equal; field; auto.
Qed.

End Inert.

(** X15.  In exact arithmetic a body of mass zero is inert: [force_from]
    returns exactly [(0.0, 0.0)] from it and on it at every separation, so
    that it adds nothing to the accumulator of any body; and [integrate]
    never moves it.  (On the floats of the code the first part needs finite
    separations and masses: see [binary64_massless_far].) *)
Theorem X15_massless_body_is_inert s a :
  CelestialBody.mass (bodies s a) = 0%R ->
  (forall b,
      Classic.force_from a b s = Done (0%R, 0%R) s
      /\ Classic.force_from b a s = Done (0%R, 0%R) s
      /\ Butterfly.force_from a b s = Done (0%R, 0%R) s
      /\ Butterfly.force_from b a s = Done (0%R, 0%R) s)
  /\ (forall (flat : list loc) z k, flat !! z = Some a -> force_between s flat k z = (0%R, 0%R))
  /\ (forall self dt,
        bodies (final (Classic.integrate self dt s)) a = bodies s a
        /\ bodies (final (Butterfly.integrate self dt s)) a = bodies s a).
Proof.
  intros Hm. split; [| split].
  - intros b.
    change (Butterfly.force_from a b s) with (Classic.force_from a b s).
    change (Butterfly.force_from b a s) with (Classic.force_from b a s).
    rewrite !force_from_gravity, !gravity_massless by auto. repeat split.
  - intros flat z k Hz. unfold force_between. rewrite Hz.
    destruct (flat !! k); [| reflexivity]. apply gravity_massless. auto.
  - intros self dt.
    change (Butterfly.integrate self dt s) with (Classic.integrate self dt s).
    rewrite integrate_unfold. destruct (_ <? 2)%nat; [split; reflexivity |].
    destruct (update_loop_bodies
                (zip (all_bodies s self) (net_forces s (all_bodies s self))) dt s)
      as (s' & -> & _ & _ & Hheavy & _).
    cbn [final]. split; apply Hheavy; lra.
Qed.

Lemma X15_witness :
  CelestialBody.mass
    (bodies (store_body 5 (CelestialBody.mk "Probe" 0 1 1 0 0 []) two_body_state) 5%nat) = 0%R
  /\ Classic.force_from 5 1 (store_body 5 (CelestialBody.mk "Probe" 0 1 1 0 0 []) two_body_state)
     = Done (0%R, 0%R) (store_body 5 (CelestialBody.mk "Probe" 0 1 1 0 0 []) two_body_state).
Proof.
  assert (H : CelestialBody.mass
                (bodies (store_body 5 (CelestialBody.mk "Probe" 0 1 1 0 0 []) two_body_state)
                   5%nat) = 0%R) by reflexivity.
  split; [exact H |].
  exact (proj1 (proj1 (X15_massless_body_is_inert _ 5%nat H) 1%nat)).
Defined.
